(** * motia-docs: the interactive components of the documentation site

    A shallow embedding of the TypeScript components of the site
    (the YouTube showcase card, the analytics hook, the video player, the
    page-action links and the docs route) and the properties the
    specification states about them.

    Conventions of the embedding.
    - A JavaScript string is a Rocq [string], one [ascii] per character.
      The model is exact on ASCII text, which is what the URLs and the
      literals of these components consist of.
    - A JavaScript number is a binary64 float ([PrimFloat.float]).
    - [null] and [undefined] are constructors of the value types that can
      hold them; an optional property is an [option].
    - A handler that writes component state, refs or the outside world runs
      in a state and exception monad; what it sends out (analytics calls,
      dataLayer pushes, console lines) is appended to logs kept in the
      state.  A handler that waits (a timer, an [await]) is split where it
      waits, and what it waits for is an event of its own. *)

From Stdlib Require Import String Ascii List ZArith Bool Lia PrimFloat Uint63.
From Stdlib Require Import SpecFloat FloatOps FloatAxioms.
From stdpp Require Import base strings gmap sets.
Import ListNotations.

Local Open Scope string_scope.
#[local] Arguments String.append !_ _ : simpl nomatch.
(* Strings are appended with [+:+]; [++] is the append of lists. *)
Disable Notation "x ++ y" : string_scope.

(** ** JavaScript values shared by the components *)

Module JS.

(** [s.startsWith(p)], also the step of matching a run of literal pattern
    characters: the rest of [s] after [p], when [p] is a prefix of [s]. *)
Fixpoint strip_prefix (p s : string) : option string :=
  match p with
  | EmptyString => Some s
  | String a p' =>
      match s with
      | EmptyString => None
      | String b s' => if Ascii.eqb a b then strip_prefix p' s' else None
      end
  end.

(** The first [n] characters of [s]. *)
Fixpoint take (n : nat) (s : string) : string :=
  match n, s with
  | S n', String c s' => String c (take n' s')
  | _, _ => EmptyString
  end.

(** Truthiness of a [string | undefined] value: [undefined] and the empty
    string are falsy. *)
Definition truthy_opt (o : option string) : bool :=
  match o with
  | Some (String _ _) => true
  | _ => false
  end.

End JS.

(** ** Regular expressions

    The patterns of the site use literal characters, alternation,
    concatenation, one capturing group and greedy [*] / [+] over a
    one-character class (a negated class or the dot).  That fragment is
    embedded with the backtracking semantics of ECMAScript: a pattern is a
    matcher taking the current state and a continuation, an alternative or a
    shorter repetition is tried when the continuation fails. *)

Module RegExp.
Import JS.

Inductive pattern : Type :=
  | Chars (w : string)            (* literal characters, escapes resolved *)
  | Class (p : ascii -> bool)     (* one character of a class *)
  | Disj (r1 r2 : pattern)        (* r1|r2 *)
  | Cat (r1 r2 : pattern)         (* r1 followed by r2 *)
  | Star (p : ascii -> bool)      (* C*, greedy, C a one-character class *)
  | Plus (p : ascii -> bool)      (* C+, greedy *)
  | Group (r : pattern).          (* the capturing group, number 1 *)

(** The state of a match in progress: the input still to read (the end
    index, counted from the end of the input) and capture 1. *)
Record MatchState : Type := mkState {
  remaining : string;
  capture1 : option string
}.

Definition Continuation : Type := MatchState -> option MatchState.

(** Greedy repetition of a one-character class: read as many characters as
    the class allows, give back one at a time while the continuation
    fails. *)
Fixpoint repeat_class (p : ascii -> bool) (s : string)
    (k : string -> option MatchState) : option MatchState :=
  match s with
  | String c s' =>
      if p c then
        match repeat_class p s' k with
        | Some y => Some y
        | None => k s
        end
      else k s
  | EmptyString => k s
  end.

Fixpoint matcher (r : pattern) (x : MatchState) (k : Continuation)
    : option MatchState :=
  match r with
  | Chars w =>
      match strip_prefix w (remaining x) with
      | Some s' => k (mkState s' (capture1 x))
      | None => None
      end
  | Class p =>
      match remaining x with
      | String c s' => if p c then k (mkState s' (capture1 x)) else None
      | EmptyString => None
      end
  | Disj r1 r2 =>
      match matcher r1 x k with
      | Some y => Some y
      | None => matcher r2 x k
      end
  | Cat r1 r2 => matcher r1 x (fun y => matcher r2 y k)
  | Star p =>
      repeat_class p (remaining x) (fun s' => k (mkState s' (capture1 x)))
  | Plus p =>
      match remaining x with
      | String c s' =>
          if p c
          then repeat_class p s' (fun s'' => k (mkState s'' (capture1 x)))
          else None
      | EmptyString => None
      end
  | Group r =>
      matcher r x (fun y =>
        k (mkState (remaining y)
             (Some (take (String.length (remaining x)
                          - String.length (remaining y)) (remaining x)))))
  end.

(** The array [String.prototype.match] returns for a pattern without the
    [g] flag: the matched text and capture 1 ([undefined] when the group did
    not take part in the match). *)
Record MatchArray : Type := mkMatch {
  match0 : string;
  match1 : option string
}.

(** [RegExp.prototype.exec] from [lastIndex = 0]: the match at the leftmost
    start index that has one, [None] for [null]. *)
Fixpoint exec (r : pattern) (s : string) : option MatchArray :=
  match matcher r (mkState s None) Some with
  | Some y =>
      Some (mkMatch
              (take (String.length s - String.length (remaining y)) s)
              (capture1 y))
  | None =>
      match s with
      | String _ s' => exec r s'
      | EmptyString => None
      end
  end.

Definition string_match (s : string) (r : pattern) : option MatchArray :=
  exec r s.

(** *** The language of a pattern

    What it means for a text to match a pattern, stated without the
    matcher. *)

Fixpoint all_chars (p : ascii -> bool) (w : string) : bool :=
  match w with
  | EmptyString => true
  | String c w' => p c && all_chars p w'
  end.

Inductive matches : pattern -> string -> Prop :=
  | M_Chars w : matches (Chars w) w
  | M_Class p c : p c = true -> matches (Class p) (String c "")
  | M_DisjL r1 r2 w : matches r1 w -> matches (Disj r1 r2) w
  | M_DisjR r1 r2 w : matches r2 w -> matches (Disj r1 r2) w
  | M_Cat r1 r2 w1 w2 :
      matches r1 w1 -> matches r2 w2 -> matches (Cat r1 r2) (w1 +:+ w2)
  | M_Star p w : all_chars p w = true -> matches (Star p) w
  | M_Plus p c w :
      p c = true -> all_chars p w = true -> matches (Plus p) (String c w)
  | M_Group r w : matches r w -> matches (Group r) w.

(** Some substring of [s] matches [r]. *)
Definition occurs (r : pattern) (s : string) : Prop :=
  exists pre w post, s = pre +:+ w +:+ post /\ matches r w.

End RegExp.

(** ** React elements

    What a component returns: a tree of host elements with their props and
    children.  A child that React skips ([false], [undefined], the empty
    string) is left out of the list of children. *)

Module React.

Inductive prop_value : Type :=
  | PStr (s : string)
  | PBool (b : bool)
  | PPercent (x : float)          (* the template `${x}%` of a number *)
  | PStrs (l : list string)
  | PHandler (name : string)      (* an event handler of the component *)
  | PRef (name : string).         (* a ref object of the component *)

#[warnings="-register-all"]
Inductive element : Type :=
  | El (tag : string) (props : list (string * prop_value))
       (children : list element)
  | Text (s : string).

(** The element and everything below it, in document order. *)
Fixpoint descendants (e : element) : list element :=
  match e with
  | El _ _ children => e :: flat_map descendants children
  | Text _ => [e]
  end.

Definition has_tag (t : string) (e : element) : bool :=
  match e with
  | El t' _ _ => String.eqb t t'
  | Text _ => false
  end.

Fixpoint assoc (k : string) (l : list (string * prop_value))
    : option prop_value :=
  match l with
  | [] => None
  | (k', v) :: l' => if String.eqb k k' then Some v else assoc k l'
  end.

Definition prop (k : string) (e : element) : option prop_value :=
  match e with
  | El _ props _ => assoc k props
  | Text _ => None
  end.

(** [textContent]: the text below an element, concatenated. *)
Fixpoint text_content (e : element) : string :=
  match e with
  | El _ _ children =>
      fold_right (fun c acc => text_content c +:+ acc) "" children
  | Text s => s
  end.

Definition by_tag (t : string) (e : element) : list element :=
  List.filter (has_tag t) (descendants e).

End React.

(** ** components/VideoShowcase *)

Module VideoShowcase.
Import JS RegExp React.

Record VideoItem : Type := mkVideoItem {
  id : string;
  title : string;
  description : option string;
  url : string
}.

(** The value [extractYouTubeId] returns: a string, [null], or the
    [undefined] that [match[1]] is when group 1 took no part. *)
Inductive video_id : Type :=
  | IdNull
  | IdUndefined
  | IdStr (s : string).

Definition LF : ascii := "010"%char.
Definition CR : ascii := "013"%char.

(** [[^&\n?#]] *)
Definition not_delimiter (c : ascii) : bool :=
  negb (Ascii.eqb c "&" || Ascii.eqb c LF || Ascii.eqb c "?" || Ascii.eqb c "#").

(** [.], every character but a line terminator (of which U+2028 and U+2029
    lie outside the characters of the model). *)
Definition dot (c : ascii) : bool :=
  negb (Ascii.eqb c LF || Ascii.eqb c CR).

(** [/(?:youtube\.com\/watch\?v=|youtu\.be\/|youtube\.com\/embed\/)([^&\n?#]+)/] *)
Definition pattern_direct : pattern :=
  Cat (Disj (Chars "youtube.com/watch?v=")
         (Disj (Chars "youtu.be/") (Chars "youtube.com/embed/")))
      (Group (Plus not_delimiter)).

(** [/youtube\.com\/watch\?.*v=([^&\n?#]+)/] *)
Definition pattern_query : pattern :=
  Cat (Chars "youtube.com/watch?")
      (Cat (Star dot) (Cat (Chars "v=") (Group (Plus not_delimiter)))).

Definition patterns : list pattern := [pattern_direct; pattern_query].

(** The loop of [extractYouTubeId] over the patterns still to try. *)
Fixpoint first_capture (ps : list pattern) (url : string) : video_id :=
  match ps with
  | [] => IdNull
  | p :: ps' =>
      match string_match url p with
      | Some m =>
          match match1 m with
          | Some s => IdStr s
          | None => IdUndefined
          end
      | None => first_capture ps' url
      end
  end.

Definition extractYouTubeId (url : string) : video_id :=
  first_capture patterns url.

(** [!videoId] *)
Definition falsy (v : video_id) : bool :=
  match v with
  | IdStr (String _ _) => false
  | _ => true
  end.

(** [`${videoId}`] *)
Definition to_template (v : video_id) : string :=
  match v with
  | IdStr s => s
  | IdNull => "null"
  | IdUndefined => "undefined"
  end.

Definition VideoCard (video : VideoItem) : element :=
  let videoId := extractYouTubeId (url video) in
  if falsy videoId then
    El "div"
      [("className", PStr "rounded-xl border-2 border-red-200 dark:border-red-900/50 bg-red-50 dark:bg-red-900/10 p-6 text-center")]
      [El "p"
         [("className", PStr "text-red-700 dark:text-red-300 font-bold")]
         [Text "Invalid YouTube URL: "; Text (url video)]]
  else
    let embedUrl := "https://www.youtube.com/embed/" +:+ to_template videoId in
    El "div"
      [("className", PStr "group flex flex-col h-full rounded-xl border border-gray-300 dark:border-gray-700 bg-white dark:bg-gray-800 text-gray-900 dark:text-gray-100 shadow-sm hover:shadow-lg hover:border-blue-400 dark:hover:border-blue-500 transition-all duration-200 overflow-hidden")]
      (El "div"
         [("className", PStr "aspect-video relative bg-gray-200 dark:bg-gray-700 border-b border-gray-200 dark:border-gray-700")]
         [El "iframe"
            [("src", PStr embedUrl);
             ("title", PStr (title video));
             ("allow", PStr "accelerometer; autoplay; clipboard-write; encrypted-media; gyroscope; picture-in-picture");
             ("allowFullScreen", PBool true);
             ("className", PStr "w-full h-full absolute inset-0");
             ("loading", PStr "lazy")]
            []]
       :: (if truthy_opt (Some (title video)) || truthy_opt (description video)
           then
             [El "div"
                [("className", PStr "p-6 flex flex-col flex-grow bg-white dark:bg-gray-800")]
                ((if truthy_opt (Some (title video))
                  then
                    [El "h3"
                       [("className", PStr "font-bold text-xl leading-snug mb-2 text-gray-900 dark:text-white group-hover:text-blue-600 dark:group-hover:text-blue-400 transition-colors")]
                       [Text (title video)]]
                  else [])
                 ++
                 (if truthy_opt (description video)
                  then
                    [El "p"
                       [("className", PStr "text-gray-600 dark:text-gray-400 text-sm leading-relaxed line-clamp-2")]
                       [Text (default "" (description video))]]
                  else []))]
           else [])).

(** [VideoShowcase]; the [title] defaults to 'Video Showcase'. *)
Definition VideoShowcase (videos : list VideoItem) (title : option string)
    (description : option string) : element :=
  El "section" [("className", PStr "py-10 w-full max-w-[1600px] mx-auto")]
    [El "div"
       [("className", PStr "mb-10 border-b border-gray-200 dark:border-gray-700 pb-6")]
       (El "h2"
          [("className", PStr "text-3xl md:text-4xl font-extrabold tracking-tight text-gray-900 dark:text-white mb-4")]
          [Text (default "Video Showcase" title)]
        :: (if truthy_opt description
            then
              [El "p"
                 [("className", PStr "text-xl text-gray-700 dark:text-gray-300 max-w-4xl leading-relaxed")]
                 [Text (default "" description)]]
            else []));
     El "div" [("className", PStr "grid grid-cols-1 md:grid-cols-2 gap-8")]
       (map VideoCard videos)].

(** The video ids a card embeds: the [src] of every [iframe] in it. *)
Definition iframe_srcs (card : element) : list (option prop_value) :=
  map (prop "src") (by_tag "iframe" card).

(** The inline error messages of a card: the text of every paragraph in the
    error style. *)
Definition error_messages (card : element) : list string :=
  map text_content
    (List.filter (fun e =>
               match prop "className" e with
               | Some (PStr c) =>
                   String.eqb c "text-red-700 dark:text-red-300 font-bold"
               | _ => false
               end)
            (by_tag "p" card)).

(** *** The URL formats the specification names *)

Definition formats : list string :=
  ["youtube.com/watch?v="; "youtu.be/"; "youtube.com/embed/"].

Definition starts_with_format (s : string) : bool :=
  existsb (fun f => match strip_prefix f s with Some _ => true | None => false end)
          formats.

(** None of the formats starts at one of the first [n] indices of [s]. *)
Fixpoint no_format_before (n : nat) (s : string) : bool :=
  match n with
  | 0 => true
  | S n' =>
      negb (starts_with_format s)
      && match s with
         | String _ s' => no_format_before n' s'
         | EmptyString => true
         end
  end.

(** The id runs to the end of the URL or to the first of [&], [?], [#] and
    the newline. *)
Definition id_ends_at (rest : string) : bool :=
  match rest with
  | EmptyString => true
  | String c _ => negb (not_delimiter c)
  end.

End VideoShowcase.

(** *** What the patterns of [extractYouTubeId] look for *)

Module VideoShowcaseSpec.
Import JS RegExp React VideoShowcase.





End VideoShowcaseSpec.

(** ** hooks/usePlausibleTracking *)

Module Plausible.

(** A value of an event property: [string | number | undefined]. *)
Inductive prop_val : Type :=
  | VUndefined
  | VString (s : string)
  | VNumber (x : float).

Definition of_string (o : option string) : prop_val :=
  match o with Some s => VString s | None => VUndefined end.

Definition of_number (o : option float) : prop_val :=
  match o with Some x => VNumber x | None => VUndefined end.

(** An object literal of event properties, its keys in the order written. *)
Definition PlausibleEventProps : Type := list (string * prop_val).

Record PlausibleRevenueData : Type := mkRevenue {
  amount : float;
  currency : string
}.

Record VideoEventProps : Type := mkVideoEventProps {
  videoTitle : option string;
  videoPath : string;
  duration : option float;
  currentTime : option float;
  percentComplete : option float
}.

(** The fields of the [eventData] object. *)
Inductive field : Type :=
  | FProps (p : PlausibleEventProps)
  | FRevenue (r : PlausibleRevenueData).

(** One call of the SDK's [plausible(eventName, options)]; the options are
    [None] for [undefined], else the object passed, as a map from its own
    keys to their values. *)
Record call : Type := mkCall {
  eventName : string;
  options : option (gmap string field)
}.

(** The calls made on the SDK so far, oldest first. *)
Definition log : Type := list call.

Definition plausible (name : string) (opts : option (gmap string field))
    (l : log) : log :=
  l ++ [mkCall name opts].

Definition trackEvent (name : string) (props : option PlausibleEventProps)
    (revenue : option PlausibleRevenueData) (l : log) : log :=
  let eventData : gmap string field := ∅ in
  let eventData :=
    match props with
    | Some p => <["props" := FProps p]> eventData
    | None => eventData
    end in
  let eventData :=
    match revenue with
    | Some r => <["revenue" := FRevenue r]> eventData
    | None => eventData
    end in
  plausible name
    (if decide (0 < size eventData) then Some eventData else None) l.

Definition trackDownload (filename : string) (method : option string)
    : log -> log :=
  trackEvent "Download"
    (Some [("filename", VString filename);
           ("method", VString (default "click" method))])
    None.

Definition trackSignup (method : option string) : log -> log :=
  trackEvent "Signup"
    (if JS.truthy_opt method then Some [("method", of_string method)] else None)
    None.

Definition trackPurchase (amount : float) (currency : option string)
    (productTitle : option string) : log -> log :=
  trackEvent "Purchase"
    (if JS.truthy_opt productTitle
     then Some [("productTitle", of_string productTitle)] else None)
    (Some (mkRevenue amount (default "USD" currency))).

Definition track404Error (path : string) : log -> log :=
  trackEvent "404" (Some [("path", VString path)]) None.

Definition trackVideoPlay (props : VideoEventProps) : log -> log :=
  trackEvent "Video Play"
    (Some [("videoTitle", of_string (videoTitle props));
           ("videoPath", VString (videoPath props))])
    None.

Definition trackVideoPause (props : VideoEventProps) : log -> log :=
  trackEvent "Video Pause"
    (Some [("videoTitle", of_string (videoTitle props));
           ("videoPath", VString (videoPath props));
           ("currentTime", of_number (currentTime props));
           ("percentComplete", of_number (percentComplete props))])
    None.

Definition trackVideoProgress (props : VideoEventProps) (milestone : float)
    : log -> log :=
  trackEvent "Video Progress"
    (Some [("videoTitle", of_string (videoTitle props));
           ("videoPath", VString (videoPath props));
           ("milestone", VNumber milestone);
           ("percentComplete", of_number (percentComplete props))])
    None.

Definition trackVideoComplete (props : VideoEventProps) : log -> log :=
  trackEvent "Video Complete"
    (Some [("videoTitle", of_string (videoTitle props));
           ("videoPath", VString (videoPath props));
           ("duration", of_number (duration props))])
    None.

(** The call [plausible(name, { props: p })]. *)
Definition props_call (name : string) (p : PlausibleEventProps) : call :=
  mkCall name (Some {["props" := FProps p]}).

Definition reports (name : string) (c : call) : bool :=
  String.eqb (eventName c) name.

Fixpoint assoc (k : string) (p : PlausibleEventProps) : option prop_val :=
  match p with
  | [] => None
  | (k', v) :: p' => if String.eqb k k' then Some v else assoc k p'
  end.

(** [options.props[key]] of a call, when the call has it. *)
Definition prop_of (key : string) (c : call) : option prop_val :=
  match options c with
  | Some o =>
      match o !! "props" with
      | Some (FProps p) => assoc key p
      | _ => None
      end
  | None => None
  end.

Definition count_calls (f : call -> bool) (l : log) : nat :=
  length (List.filter f l).

End Plausible.

(** ** components/VideoPlayer *)

Module VideoPlayer.

Record VideoPlayerProps : Type := mkProps {
  videoPath : string;
  title : option string;
  thumbnailPath : option string;
  gifPath : option string;
  className : option string       (* defaults to the empty string *)
}.

(** The properties of the [<video>] element the handlers read and write. *)
Record VideoElement : Type := mkVideo {
  currentTime : float;
  duration : float;
  paused : bool;
  muted : bool
}.

(** An event pushed to the GTM dataLayer: an object literal. *)
Definition DataLayerEvent : Type := list (string * Plausible.prop_val).

Record Window : Type := mkWindow {
  dataLayer : option (list DataLayerEvent)    (* [None]: no dataLayer installed *)
}.

(** A call of [requestFullscreen] or [exitFullscreen] whose promise has not
    settled yet. *)
Inductive fs_request : Type := RequestFullscreen | ExitFullscreen.

(** How a promise settles. *)
Inductive settled : Type :=
  | Resolved
  | Rejected (err : string).

(** The component instance and the part of the page it acts on: the
    [useState] values, the refs, and the outside world (the analytics SDK,
    [window], the console, [document.fullscreenElement], the timers and
    promises still pending). *)
Record State : Type := mkState {
  isPlaying : bool;
  isPaused : bool;
  isMuted : bool;
  isFullscreen : bool;
  progress : float;
  showControls : bool;
  videoRef : option VideoElement;
  containerRef : bool;
  controlsTimeoutRef : option bool;
  trackedMilestonesRef : gset Z;
  hasTrackedPlayRef : bool;
  plausible : Plausible.log;
  window : option Window;
  console : list (string * string);
  fullscreenElement : bool;
  playTimeouts : nat;
  fullscreenRequests : list fs_request
}.

Definition set_isPlaying (v : bool) (st : State) : State :=
  mkState v (isPaused st) (isMuted st) (isFullscreen st) (progress st)
    (showControls st) (videoRef st) (containerRef st)
    (controlsTimeoutRef st) (trackedMilestonesRef st) (hasTrackedPlayRef st)
    (plausible st) (window st) (console st) (fullscreenElement st)
    (playTimeouts st) (fullscreenRequests st).

Definition set_isPaused (v : bool) (st : State) : State :=
  mkState (isPlaying st) v (isMuted st) (isFullscreen st) (progress st)
    (showControls st) (videoRef st) (containerRef st)
    (controlsTimeoutRef st) (trackedMilestonesRef st) (hasTrackedPlayRef st)
    (plausible st) (window st) (console st) (fullscreenElement st)
    (playTimeouts st) (fullscreenRequests st).

Definition set_isMuted (v : bool) (st : State) : State :=
  mkState (isPlaying st) (isPaused st) v (isFullscreen st) (progress st)
    (showControls st) (videoRef st) (containerRef st)
    (controlsTimeoutRef st) (trackedMilestonesRef st) (hasTrackedPlayRef st)
    (plausible st) (window st) (console st) (fullscreenElement st)
    (playTimeouts st) (fullscreenRequests st).

Definition set_isFullscreen (v : bool) (st : State) : State :=
  mkState (isPlaying st) (isPaused st) (isMuted st) v (progress st)
    (showControls st) (videoRef st) (containerRef st)
    (controlsTimeoutRef st) (trackedMilestonesRef st) (hasTrackedPlayRef st)
    (plausible st) (window st) (console st) (fullscreenElement st)
    (playTimeouts st) (fullscreenRequests st).

Definition set_progress (v : float) (st : State) : State :=
  mkState (isPlaying st) (isPaused st) (isMuted st) (isFullscreen st) v
    (showControls st) (videoRef st) (containerRef st)
    (controlsTimeoutRef st) (trackedMilestonesRef st) (hasTrackedPlayRef st)
    (plausible st) (window st) (console st) (fullscreenElement st)
    (playTimeouts st) (fullscreenRequests st).

Definition set_showControls (v : bool) (st : State) : State :=
  mkState (isPlaying st) (isPaused st) (isMuted st) (isFullscreen st)
    (progress st) v (videoRef st) (containerRef st) (controlsTimeoutRef st)
    (trackedMilestonesRef st) (hasTrackedPlayRef st) (plausible st)
    (window st) (console st) (fullscreenElement st) (playTimeouts st)
    (fullscreenRequests st).

Definition set_videoRef (v : option VideoElement) (st : State) : State :=
  mkState (isPlaying st) (isPaused st) (isMuted st) (isFullscreen st)
    (progress st) (showControls st) v (containerRef st)
    (controlsTimeoutRef st) (trackedMilestonesRef st) (hasTrackedPlayRef st)
    (plausible st) (window st) (console st) (fullscreenElement st)
    (playTimeouts st) (fullscreenRequests st).

Definition set_containerRef (v : bool) (st : State) : State :=
  mkState (isPlaying st) (isPaused st) (isMuted st) (isFullscreen st)
    (progress st) (showControls st) (videoRef st) v (controlsTimeoutRef st)
    (trackedMilestonesRef st) (hasTrackedPlayRef st) (plausible st)
    (window st) (console st) (fullscreenElement st) (playTimeouts st)
    (fullscreenRequests st).

Definition set_controlsTimeoutRef (v : option bool) (st : State) : State :=
  mkState (isPlaying st) (isPaused st) (isMuted st) (isFullscreen st)
    (progress st) (showControls st) (videoRef st) (containerRef st) v
    (trackedMilestonesRef st) (hasTrackedPlayRef st) (plausible st)
    (window st) (console st) (fullscreenElement st) (playTimeouts st)
    (fullscreenRequests st).

Definition set_trackedMilestonesRef (v : gset Z) (st : State) : State :=
  mkState (isPlaying st) (isPaused st) (isMuted st) (isFullscreen st)
    (progress st) (showControls st) (videoRef st) (containerRef st)
    (controlsTimeoutRef st) v (hasTrackedPlayRef st) (plausible st)
    (window st) (console st) (fullscreenElement st) (playTimeouts st)
    (fullscreenRequests st).

Definition set_hasTrackedPlayRef (v : bool) (st : State) : State :=
  mkState (isPlaying st) (isPaused st) (isMuted st) (isFullscreen st)
    (progress st) (showControls st) (videoRef st) (containerRef st)
    (controlsTimeoutRef st) (trackedMilestonesRef st) v (plausible st)
    (window st) (console st) (fullscreenElement st) (playTimeouts st)
    (fullscreenRequests st).

Definition set_plausible (v : Plausible.log) (st : State) : State :=
  mkState (isPlaying st) (isPaused st) (isMuted st) (isFullscreen st)
    (progress st) (showControls st) (videoRef st) (containerRef st)
    (controlsTimeoutRef st) (trackedMilestonesRef st) (hasTrackedPlayRef st)
    v (window st) (console st) (fullscreenElement st) (playTimeouts st)
    (fullscreenRequests st).

Definition set_window (v : option Window) (st : State) : State :=
  mkState (isPlaying st) (isPaused st) (isMuted st) (isFullscreen st)
    (progress st) (showControls st) (videoRef st) (containerRef st)
    (controlsTimeoutRef st) (trackedMilestonesRef st) (hasTrackedPlayRef st)
    (plausible st) v (console st) (fullscreenElement st) (playTimeouts st)
    (fullscreenRequests st).

Definition set_console (v : list (string * string)) (st : State) : State :=
  mkState (isPlaying st) (isPaused st) (isMuted st) (isFullscreen st)
    (progress st) (showControls st) (videoRef st) (containerRef st)
    (controlsTimeoutRef st) (trackedMilestonesRef st) (hasTrackedPlayRef st)
    (plausible st) (window st) v (fullscreenElement st) (playTimeouts st)
    (fullscreenRequests st).

Definition set_fullscreenElement (v : bool) (st : State) : State :=
  mkState (isPlaying st) (isPaused st) (isMuted st) (isFullscreen st)
    (progress st) (showControls st) (videoRef st) (containerRef st)
    (controlsTimeoutRef st) (trackedMilestonesRef st) (hasTrackedPlayRef st)
    (plausible st) (window st) (console st) v (playTimeouts st)
    (fullscreenRequests st).

Definition set_playTimeouts (v : nat) (st : State) : State :=
  mkState (isPlaying st) (isPaused st) (isMuted st) (isFullscreen st)
    (progress st) (showControls st) (videoRef st) (containerRef st)
    (controlsTimeoutRef st) (trackedMilestonesRef st) (hasTrackedPlayRef st)
    (plausible st) (window st) (console st) (fullscreenElement st) v
    (fullscreenRequests st).

Definition set_fullscreenRequests (v : list fs_request) (st : State) : State :=
  mkState (isPlaying st) (isPaused st) (isMuted st) (isFullscreen st)
    (progress st) (showControls st) (videoRef st) (containerRef st)
    (controlsTimeoutRef st) (trackedMilestonesRef st) (hasTrackedPlayRef st)
    (plausible st) (window st) (console st) (fullscreenElement st)
    (playTimeouts st) v.

(** *** Handlers run in a state and exception monad *)

Inductive Outcome (A : Type) : Type :=
  | Done (a : A) (st : State)
  | Thrown (err : string) (st : State).
Arguments Done {A} a st.
Arguments Thrown {A} err st.

Definition M (A : Type) : Type := State -> Outcome A.

Definition ret {A} (a : A) : M A := fun st => Done a st.

Definition bind {A B} (m : M A) (f : A -> M B) : M B :=
  fun st =>
    match m st with
    | Done a st' => f a st'
    | Thrown e st' => Thrown e st'
    end.

Definition throw {A} (err : string) : M A := fun st => Thrown err st.

(** [try { m } catch (err) { h err }] *)
Definition try_catch {A} (m : M A) (h : string -> M A) : M A :=
  fun st =>
    match m st with
    | Done a st' => Done a st'
    | Thrown e st' => h e st'
    end.

Definition gets {A} (f : State -> A) : M A := fun st => Done (f st) st.
Definition modify (f : State -> State) : M unit := fun st => Done tt (f st).

Declare Scope handler_scope.
Delimit Scope handler_scope with handler.
Notation "x <- m ;; k" := (bind m (fun x => k))
  (at level 100, m at level 99, k at level 200, right associativity)
  : handler_scope.
Notation "m ;; k" := (bind m (fun _ => k))
  (at level 100, k at level 200, right associativity) : handler_scope.
Local Open Scope handler_scope.

Definition when (b : bool) (m : M unit) : M unit := if b then m else ret tt.

(** [for (const x of l) { body x }] *)
Fixpoint for_of {A} (l : list A) (body : A -> M unit) : M unit :=
  match l with
  | [] => ret tt
  | x :: l' => body x ;; for_of l' body
  end.

Definition state_of {A} (o : Outcome A) : State :=
  match o with
  | Done _ st => st
  | Thrown _ st => st
  end.

(** The number a non-negative integer literal denotes. *)
Definition number (z : Z) : float := PrimFloat.of_uint63 (Uint63.of_Z z).

(** [x >= y] on numbers: false when either is NaN. *)
Definition geb (x y : float) : bool := PrimFloat.leb y x.

Definition finite (x : float) : bool :=
  negb (PrimFloat.is_nan x) && negb (PrimFloat.is_infinity x).

(** The instance once mounted, on a page whose window is [w]: the poster
    is shown, the container is there, the video element is not yet. *)
Definition initial (w : option Window) : State :=
  {| isPlaying := false; isPaused := false; isMuted := false;
     isFullscreen := false; progress := number 0; showControls := true;
     videoRef := None; containerRef := true; controlsTimeoutRef := None;
     trackedMilestonesRef := ∅; hasTrackedPlayRef := false;
     plausible := []; window := w; console := [];
     fullscreenElement := false; playTimeouts := 0;
     fullscreenRequests := [] |}.

Section Handlers.

(** [Math.round], a builtin of the engine. *)
Variable Math_round : float -> float.

(** The props of this instance. *)
Variable props : VideoPlayerProps.

Import Plausible (VString, VNumber, VUndefined, of_string, of_number).

Definition pushToDataLayer (eventName : string) (eventData : DataLayerEvent)
    : M unit :=
  w <- gets window ;;
  match w with
  | Some win =>
      match dataLayer win with
      | Some dl =>
          modify (set_window
            (Some (mkWindow
               (Some (dl ++ [("event", VString eventName) :: eventData])))))
      | None => ret tt
      end
  | None => ret tt
  end.

(** A call of one of the tracking functions of [usePlausibleTracking]. *)
Definition track (f : Plausible.log -> Plausible.log) : M unit :=
  modify (fun st => set_plausible (f (plausible st)) st).

Definition getVideoEventProps : M Plausible.VideoEventProps :=
  video <- gets videoRef ;;
  ret (Plausible.mkVideoEventProps
         (title props)
         (videoPath props)
         (duration <$> video)
         (currentTime <$> video)
         (Some match video with
               | Some v =>
                   Math_round (currentTime v / duration v * number 100)%float
               | None => number 0
               end)).

(** [videoRef.current?.play()] and [.pause()]: what the element does to its
    own [paused] property. *)
Definition video_set_paused (b : bool) : M unit :=
  modify (fun st =>
    set_videoRef
      ((fun v => mkVideo (currentTime v) (duration v) b (muted v))
         <$> videoRef st) st).

(** The tracking of the first play, shared text of [handlePlayClick] and
    [togglePlayPause]. *)
Definition track_first_play : M unit :=
  tracked <- gets hasTrackedPlayRef ;;
  when (negb tracked)
    (p <- getVideoEventProps ;;
     track (Plausible.trackVideoPlay p) ;;
     pushToDataLayer "video_start"
       [("video_title", of_string (Plausible.videoTitle p));
        ("video_url", VString (Plausible.videoPath p))] ;;
     modify (set_hasTrackedPlayRef true)).

(** [handlePlayClick] up to [setTimeout]: the callback is left pending. *)
Definition handlePlayClick : M unit :=
  modify (set_isPlaying true) ;;
  modify (fun st => set_playTimeouts (S (playTimeouts st)) st).

(** The callback [handlePlayClick] gave to [setTimeout]. *)
Definition handlePlayClick_timeout : M unit :=
  video_set_paused false ;;
  track_first_play.

Definition togglePlayPause : M unit :=
  video <- gets videoRef ;;
  match video with
  | Some v =>
      if paused v then
        video_set_paused false ;;
        modify (set_isPaused false) ;;
        track_first_play
      else
        video_set_paused true ;;
        modify (set_isPaused true) ;;
        p <- getVideoEventProps ;;
        track (Plausible.trackVideoPause p) ;;
        pushToDataLayer "video_pause"
          [("video_title", of_string (Plausible.videoTitle p));
           ("video_url", VString (Plausible.videoPath p));
           ("video_current_time", of_number (Plausible.currentTime p));
           ("video_percent", of_number (Plausible.percentComplete p))]
  | None => ret tt
  end.

Definition toggleMute : M unit :=
  video <- gets videoRef ;;
  match video with
  | Some v =>
      let m := negb (muted v) in
      modify (set_videoRef
                (Some (mkVideo (currentTime v) (duration v) (paused v) m))) ;;
      modify (set_isMuted m)
  | None => ret tt
  end.

(** [toggleFullscreen] up to its [await]: the request is left pending. *)
Definition toggleFullscreen_call : M unit :=
  container <- gets containerRef ;;
  if negb container then ret tt
  else
    fs <- gets fullscreenElement ;;
    modify (fun st =>
      set_fullscreenRequests
        (fullscreenRequests st
         ++ [if negb fs then RequestFullscreen else ExitFullscreen]) st).

(** [await p] for a promise that settles as [r]. *)
Definition await (r : settled) : M unit :=
  match r with
  | Resolved => ret tt
  | Rejected err => throw err
  end.

Definition console_error (msg err : string) : M unit :=
  modify (fun st => set_console (console st ++ [(msg, err)]) st).

(** [toggleFullscreen] from its [await] on, inside the [try]. *)
Definition toggleFullscreen_resume (q : fs_request) (r : settled) : M unit :=
  try_catch
    (match q with
     | RequestFullscreen => await r ;; modify (set_isFullscreen true)
     | ExitFullscreen => await r ;; modify (set_isFullscreen false)
     end)
    (fun err => console_error "Fullscreen error:" err).

(** [toggleFullscreen] when nothing else happens while it waits: the
    promise it awaits settles as [r]. *)
Definition toggleFullscreen (r : settled) : M unit :=
  container <- gets containerRef ;;
  if negb container then ret tt
  else
    fs <- gets fullscreenElement ;;
    toggleFullscreen_resume
      (if negb fs then RequestFullscreen else ExitFullscreen) r.

Definition milestones : list Z := [25; 50; 75]%Z.

(** The body of the loop of [handleTimeUpdate] over the milestones. *)
Definition handleTimeUpdate_milestone (currentProgress : float)
    (milestone : Z) : M unit :=
  tracked <- gets trackedMilestonesRef ;;
  when (geb currentProgress (number milestone)
        && negb (bool_decide (milestone ∈ tracked)))
    (modify (fun st =>
       set_trackedMilestonesRef
         ({[milestone]} ∪ trackedMilestonesRef st) st) ;;
     p <- getVideoEventProps ;;
     track (Plausible.trackVideoProgress p (number milestone)) ;;
     pushToDataLayer "video_progress"
       [("video_title", of_string (Plausible.videoTitle p));
        ("video_url", VString (Plausible.videoPath p));
        ("video_percent", VNumber (number milestone))]).

Definition handleTimeUpdate : M unit :=
  video <- gets videoRef ;;
  match video with
  | Some v =>
      let currentProgress :=
        (currentTime v / duration v * number 100)%float in
      modify (set_progress currentProgress) ;;
      for_of milestones (handleTimeUpdate_milestone currentProgress)
  | None => ret tt
  end.

Definition handleVideoEnded : M unit :=
  modify (set_isPaused true) ;;
  tracked <- gets trackedMilestonesRef ;;
  when (negb (bool_decide (100%Z ∈ tracked)))
    (modify (fun st =>
       set_trackedMilestonesRef ({[100%Z]} ∪ trackedMilestonesRef st) st) ;;
     p <- getVideoEventProps ;;
     track (Plausible.trackVideoComplete p) ;;
     pushToDataLayer "video_complete"
       [("video_title", of_string (Plausible.videoTitle p));
        ("video_url", VString (Plausible.videoPath p));
        ("video_duration", of_number (Plausible.duration p))]).

(** [handleProgressClick]; [clientX] is the event's, [rectLeft] and
    [rectWidth] the bounding rectangle's.  Assigning a number that is not finite to
    [currentTime] throws a [TypeError]. *)
Definition handleProgressClick (clientX rectLeft rectWidth : float) : M unit :=
  video <- gets videoRef ;;
  match video with
  | Some v =>
      let clickPosition := ((clientX - rectLeft) / rectWidth)%float in
      let t := (clickPosition * duration v)%float in
      if finite t
      then modify (set_videoRef
                     (Some (mkVideo t (duration v) (paused v) (muted v))))
      else throw "TypeError"
  | None => ret tt
  end.

(** [handleMouseMove]: the pending timer, if any, is replaced by one whose
    callback holds the [isPaused] of this render. *)
Definition handleMouseMove : M unit :=
  modify (set_showControls true) ;;
  p <- gets isPaused ;;
  modify (set_controlsTimeoutRef (Some p)).

(** The callback [handleMouseMove] gave to [setTimeout]. *)
Definition handleMouseMove_timeout (isPaused_then : bool) : M unit :=
  when (negb isPaused_then) (modify (set_showControls false)).

Definition handleMouseLeave : M unit :=
  p <- gets isPaused ;;
  when (negb p) (modify (set_showControls false)).

Definition handleFullscreenChange : M unit :=
  fs <- gets fullscreenElement ;;
  modify (set_isFullscreen fs).

(** *** What can happen to a mounted player *)

Inductive event : Type :=
  | ClickPoster                       (* the poster button *)
  | PlayTimeout                       (* the 100 ms timer of a poster click *)
  | ClickPlayPause                    (* the video, the play/pause buttons *)
  | ClickMute
  | ClickFullscreen
  | FullscreenSettled (r : settled)   (* the oldest pending request settles *)
  | TimeUpdate
  | Ended
  | ClickProgress (clientX rectLeft rectWidth : float)
  | MouseMove
  | MouseLeave
  | ControlsTimeout                   (* the 2.5 s timer of a mouse move *)
  | FullscreenChange
  | Browser (video : option VideoElement) (container fullscreen : bool).
      (* the page changes under the component: the video element is
         mounted, plays on, seeks; the document enters or leaves
         fullscreen *)

Definition step (e : event) : M unit :=
  match e with
  | ClickPoster => handlePlayClick
  | PlayTimeout =>
      n <- gets playTimeouts ;;
      match n with
      | S n' => modify (set_playTimeouts n') ;; handlePlayClick_timeout
      | O => ret tt
      end
  | ClickPlayPause => togglePlayPause
  | ClickMute => toggleMute
  | ClickFullscreen => toggleFullscreen_call
  | FullscreenSettled r =>
      qs <- gets fullscreenRequests ;;
      match qs with
      | q :: qs' =>
          modify (set_fullscreenRequests qs') ;;
          when (match r with Resolved => true | Rejected _ => false end)
            (modify (set_fullscreenElement
                       (match q with
                        | RequestFullscreen => true
                        | ExitFullscreen => false
                        end))) ;;
          toggleFullscreen_resume q r
      | [] => ret tt
      end
  | TimeUpdate => handleTimeUpdate
  | Ended => handleVideoEnded
  | ClickProgress clientX rectLeft rectWidth => handleProgressClick clientX rectLeft rectWidth
  | MouseMove => handleMouseMove
  | MouseLeave => handleMouseLeave
  | ControlsTimeout =>
      t <- gets controlsTimeoutRef ;;
      match t with
      | Some p => modify (set_controlsTimeoutRef None) ;; handleMouseMove_timeout p
      | None => ret tt
      end
  | FullscreenChange => handleFullscreenChange
  | Browser video container fullscreen =>
      modify (set_videoRef video) ;;
      modify (set_containerRef container) ;;
      modify (set_fullscreenElement fullscreen)
  end.

(** A session: the events of one mounted instance, in order.  An exception
    a handler lets escape ends that handler, not the session. *)
Definition run (evs : list event) (st : State) : State :=
  fold_left (fun st e => state_of (step e st)) evs st.

End Handlers.

(** *** What the component renders *)

Section Render.
Import React.

Variable props : VideoPlayerProps.

(** [title || "Video preview"] *)
Definition preview_alt : string :=
  if JS.truthy_opt (title props) then default "" (title props)
  else "Video preview".

(** The view before the first click: the preview and the play button. *)
Definition poster : element :=
  El "button"
    [("onClick", PHandler "handlePlayClick");
     ("className", PStr "group absolute inset-0 w-full h-full block focus:outline-none focus:ring-2 focus:ring-blue-500");
     ("aria-label",
      PStr (if JS.truthy_opt (title props)
            then "Play " +:+ default "" (title props)
            else "Play video"))]
    [(* GIF or Thumbnail or Fallback *)
     if JS.truthy_opt (gifPath props) then
       El "img"
         [("src", PStr (default "" (gifPath props)));
          ("alt", PStr preview_alt);
          ("className", PStr "w-full h-full object-cover")]
         []
     else if JS.truthy_opt (thumbnailPath props) then
       El "img"
         [("src", PStr (default "" (thumbnailPath props)));
          ("alt", PStr preview_alt);
          ("className", PStr "w-full h-full object-cover")]
         []
     else
       El "div"
         [("className", PStr "w-full h-full bg-black/10 dark:bg-black/40")]
         [];
     (* Play Button Overlay *)
     El "div"
       [("className", PStr "absolute inset-0 bg-black/20 group-hover:bg-black/30 transition-colors flex items-center justify-center")]
       [El "div"
          [("className", PStr "w-20 h-20 bg-blue-600/90 backdrop-blur-sm rounded-full flex items-center justify-center group-hover:bg-blue-600 group-hover:scale-110 transition-all shadow-lg")]
          [El "svg"
             [("className", PStr "w-10 h-10 text-white ml-1");
              ("fill", PStr "currentColor");
              ("viewBox", PStr "0 0 24 24")]
             [El "path" [("d", PStr "M8 5v14l11-7z")] []]]]].

Definition icon (className d : string) : element :=
  El "svg"
    [("className", PStr className);
     ("fill", PStr "currentColor");
     ("viewBox", PStr "0 0 24 24")]
    [El "path" [("d", PStr d)] []].

(** The view once playing: the video element and the controls overlay. *)
Definition player (st : State) : element :=
  El "div" [("className", PStr "relative w-full h-full")]
    ([El "video"
        [("ref", PRef "videoRef");
         ("className",
          PStr ("w-full h-full bg-black "
                +:+ (if isFullscreen st then "object-contain"
                     else "object-contain")));
         ("autoPlay", PBool true);
         ("preload", PStr "none");
         ("playsInline", PBool true);
         ("onTimeUpdate", PHandler "handleTimeUpdate");
         ("onEnded", PHandler "handleVideoEnded");
         ("onClick", PHandler "togglePlayPause")]
        [El "source"
           [("src", PStr (videoPath props)); ("type", PStr "video/mp4")] [];
         Text "Your browser does not support the video tag."];
      (* Custom Controls Overlay *)
      El "div"
        [("className",
          PStr ("absolute bottom-0 left-0 right-0 bg-gradient-to-t from-black/80 via-black/40 to-transparent pt-12 pb-3 px-4 transition-opacity duration-300 "
                +:+ (if showControls st then "opacity-100" else "opacity-0")))]
        [(* Progress Bar *)
         El "div"
           [("className", PStr "w-full h-1.5 bg-white/30 rounded-full mb-3 cursor-pointer group");
            ("onClick", PHandler "handleProgressClick")]
           [El "div"
              [("className", PStr "h-full bg-blue-500 rounded-full relative transition-all");
               ("style.width", PPercent (progress st))]
              [El "div"
                 [("className", PStr "absolute right-0 top-1/2 -translate-y-1/2 w-3.5 h-3.5 bg-white rounded-full shadow-md opacity-0 group-hover:opacity-100 transition-opacity")]
                 []]];
         (* Control Buttons *)
         El "div" [("className", PStr "flex items-center justify-between")]
           [El "div" [("className", PStr "flex items-center gap-2")]
              [(* Play/Pause *)
               El "button"
                 [("onClick", PHandler "togglePlayPause");
                  ("className", PStr "p-2 hover:bg-white/20 rounded-lg transition-colors");
                  ("aria-label", PStr (if isPaused st then "Play" else "Pause"))]
                 [if isPaused st
                  then icon "w-6 h-6 text-white" "M8 5v14l11-7z"
                  else icon "w-6 h-6 text-white"
                         "M6 4h4v16H6V4zm8 0h4v16h-4V4z"];
               (* Mute/Unmute *)
               El "button"
                 [("onClick", PHandler "toggleMute");
                  ("className", PStr "p-2 hover:bg-white/20 rounded-lg transition-colors");
                  ("aria-label", PStr (if isMuted st then "Unmute" else "Mute"))]
                 [if isMuted st
                  then icon "w-6 h-6 text-white"
                         "M16.5 12c0-1.77-1.02-3.29-2.5-4.03v2.21l2.45 2.45c.03-.2.05-.41.05-.63zm2.5 0c0 .94-.2 1.82-.54 2.64l1.51 1.51C20.63 14.91 21 13.5 21 12c0-4.28-2.99-7.86-7-8.77v2.06c2.89.86 5 3.54 5 6.71zM4.27 3L3 4.27 7.73 9H3v6h4l5 5v-6.73l4.25 4.25c-.67.52-1.42.93-2.25 1.18v2.06c1.38-.31 2.63-.95 3.69-1.81L19.73 21 21 19.73l-9-9L4.27 3zM12 4L9.91 6.09 12 8.18V4z"
                  else icon "w-6 h-6 text-white"
                         "M3 9v6h4l5 5V4L7 9H3zm13.5 3c0-1.77-1.02-3.29-2.5-4.03v8.05c1.48-.73 2.5-2.25 2.5-4.02zM14 3.23v2.06c2.89.86 5 3.54 5 6.71s-2.11 5.85-5 6.71v2.06c4.01-.91 7-4.49 7-8.77s-2.99-7.86-7-8.77z"]];
            (* Fullscreen *)
            El "button"
              [("onClick", PHandler "toggleFullscreen");
               ("className", PStr "p-2 hover:bg-white/20 rounded-lg transition-colors");
               ("aria-label",
                PStr (if isFullscreen st then "Exit fullscreen"
                      else "Enter fullscreen"))]
              [if isFullscreen st
               then icon "w-6 h-6 text-white"
                      "M5 16h3v3h2v-5H5v2zm3-8H5v2h5V5H8v3zm6 11h2v-3h3v-2h-5v5zm2-11V5h-2v5h5V8h-3z"
               else icon "w-6 h-6 text-white"
                      "M7 14H5v5h5v-2H7v-3zm-2-4h2V7h3V5H5v5zm12 7h-3v2h5v-5h-2v3zM14 5v2h3v3h2V5h-5z"]]]]
     ++
     (* Center Play Button (when paused) *)
     (if isPaused st
      then
        [El "button"
           [("onClick", PHandler "togglePlayPause");
            ("className", PStr "absolute inset-0 flex items-center justify-center bg-black/30")]
           [El "div"
              [("className", PStr "w-20 h-20 bg-blue-600/90 backdrop-blur-sm rounded-full flex items-center justify-center hover:bg-blue-600 hover:scale-110 transition-all shadow-lg")]
              [icon "w-10 h-10 text-white ml-1" "M8 5v14l11-7z"]]]
      else [])).

(** The [return] of [VideoPlayer]. *)
Definition render (st : State) : element :=
  El "div"
    [("ref", PRef "containerRef");
     ("className",
      PStr ("rounded-xl overflow-hidden "
            +:+ (if isFullscreen st then "rounded-none" else "")
            +:+ " " +:+ default "" (className props)));
     ("onMouseMove", PHandler "handleMouseMove");
     ("onMouseLeave", PHandler "handleMouseLeave")]
    [El "div"
       [("className",
         PStr ("aspect-video relative bg-black "
               +:+ (if isFullscreen st then "h-screen w-screen aspect-auto"
                    else "")))]
       [if negb (isPlaying st) then poster else player st]].

(** The images a view shows, by their [src]. *)
Definition image_sources (view : element) : list (option prop_value) :=
  map (prop "src") (by_tag "img" view).

(** The plain placeholders a view shows in place of a preview image. *)
Definition placeholders (view : element) : list element :=
  List.filter
    (fun e =>
       match prop "className" e with
       | Some (PStr c) =>
           String.eqb c "w-full h-full bg-black/10 dark:bg-black/40"
       | _ => false
       end)
    (by_tag "div" view).

End Render.

(** *** Counting what a session reported *)

Definition b2n (b : bool) : nat := if b then 1 else 0.

Definition is_play : Plausible.call -> bool := Plausible.reports "Video Play".

Definition is_complete : Plausible.call -> bool :=
  Plausible.reports "Video Complete".

(** A [Video Progress] call for the milestone [m]. *)
Definition is_progress (m : Z) (c : Plausible.call) : bool :=
  Plausible.reports "Video Progress" c
  && match Plausible.prop_of "milestone" c with
     | Some (Plausible.VNumber x) => PrimFloat.eqb x (number m)
     | _ => false
     end.

(** A dataLayer event named [name]. *)
Definition is_push (name : string) (e : DataLayerEvent) : bool :=
  match Plausible.assoc "event" e with
  | Some (Plausible.VString n) => String.eqb n name
  | _ => false
  end.

(** A [video_progress] event for the milestone [m]. *)
Definition is_progress_push (m : Z) (e : DataLayerEvent) : bool :=
  is_push "video_progress" e
  && match Plausible.assoc "video_percent" e with
     | Some (Plausible.VNumber x) => PrimFloat.eqb x (number m)
     | _ => false
     end.

Definition count_pushes (f : DataLayerEvent -> bool)
    (l : list DataLayerEvent) : nat :=
  length (List.filter f l).

(** The content of [window.dataLayer], empty when there is none. *)
Definition dataLayer_events (w : option Window) : list DataLayerEvent :=
  match w with
  | Some win => default [] (dataLayer win)
  | None => []
  end.

(** What the dataLayer of [st] holds beyond what [w] held. *)
Definition pushed_since (w : option Window) (st : State)
    : list DataLayerEvent :=
  drop (length (dataLayer_events w)) (dataLayer_events (window st)).

(** The window [w] after the events [pushed] were pushed on its dataLayer,
    if it has one. *)
Definition with_pushed (w : option Window) (pushed : list DataLayerEvent)
    : option Window :=
  (fun win => mkWindow ((fun dl => dl ++ pushed) <$> dataLayer win)) <$> w.

(** How often the poster gave way to the video during the session that
    starts in [st]. *)
Fixpoint poster_to_video (Math_round : float -> float)
    (props : VideoPlayerProps) (evs : list event) (st : State) : nat :=
  match evs with
  | [] => 0
  | e :: evs' =>
      let st' := state_of (step Math_round props e st) in
      b2n (negb (isPlaying st) && isPlaying st')
      + poster_to_video Math_round props evs' st'
  end.

(** *** What a session keeps true *)

(** What the analytics of a session depend on. *)
Definition analytics (st : State)
    : Plausible.log * option Window * gset Z * bool :=
  (plausible st, window st, trackedMilestonesRef st, hasTrackedPlayRef st).

(** The invariant of a session on a page whose window was [w] at the
    start: every report made so far is accounted for by a guard. *)
Record analytics_inv (w : option Window) (st : State) : Prop := mkInv {
  inv_play :
    Plausible.count_calls is_play (plausible st) = b2n (hasTrackedPlayRef st);
  inv_progress : forall m, In m milestones ->
    Plausible.count_calls (is_progress m) (plausible st)
    = b2n (bool_decide (m ∈ trackedMilestonesRef st));
  inv_complete :
    Plausible.count_calls is_complete (plausible st)
    = b2n (bool_decide (100%Z ∈ trackedMilestonesRef st));
  inv_pushed : exists pushed,
    window st = with_pushed w pushed /\
    count_pushes (is_push "video_start") pushed <= b2n (hasTrackedPlayRef st) /\
    (forall m, In m milestones ->
       count_pushes (is_progress_push m) pushed
       <= b2n (bool_decide (m ∈ trackedMilestonesRef st))) /\
    count_pushes (is_push "video_complete") pushed
    <= b2n (bool_decide (100%Z ∈ trackedMilestonesRef st))
}.

(** A handler keeps [I] when [I] holds of the state it leaves, however it
    ends. *)
Definition preserves {A} (I : State -> Prop) (m : M A) : Prop :=
  forall st, I st -> I (state_of (m st)).

(** The events of a session that are clicks on the poster, and those
    that are the end of the video. *)
Definition is_click_poster (e : event) : bool :=
  match e with ClickPoster => true | _ => false end.

Definition is_ended (e : event) : bool :=
  match e with Ended => true | _ => false end.

End VideoPlayer.

(** *** Vocabulary for the sessions of the player *)

Module VideoPlayerSpec.
Import VideoPlayer.

(** The events that may change [isFullscreen]: a request that resolved,
    and [fullscreenchange]. *)
Definition sets_fullscreen (e : event) : bool :=
  match e with
  | FullscreenSettled Resolved | FullscreenChange => true
  | _ => false
  end.

Definition is_click_mute (e : event) : bool :=
  match e with ClickMute => true | _ => false end.

(** The events that set or fire the timer of the controls. *)
Definition is_controls_timer (e : event) : bool :=
  match e with MouseMove | ControlsTimeout => true | _ => false end.

(** The name under which a Plausible event goes to the dataLayer. *)
Definition dataLayer_name (eventName : string) : string :=
  if String.eqb eventName "Video Play" then "video_start"
  else if String.eqb eventName "Video Pause" then "video_pause"
  else if String.eqb eventName "Video Progress" then "video_progress"
  else if String.eqb eventName "Video Complete" then "video_complete"
  else eventName.

(** A dataLayer event that says what the Plausible call [c] says: the
    event under its dataLayer name, the same title and the same URL. *)
Definition mirrors (c : Plausible.call) (e : DataLayerEvent) : Prop :=
  Plausible.assoc "event" e
  = Some (Plausible.VString (dataLayer_name (Plausible.eventName c))) /\
  Plausible.assoc "video_title" e = Plausible.prop_of "videoTitle" c /\
  Plausible.assoc "video_url" e = Plausible.prop_of "videoPath" c.

(** The dataLayer of [st] is that of [w] followed by one event for each
    Plausible call, in the order of the calls. *)
Definition mirrored (w : option Window) (st : State) : Prop :=
  exists pushed,
    window st = with_pushed w pushed /\
    Forall2 mirrors (plausible st) pushed.

(** What every report of a player with the props [props] looks like: one
    of the four video events, whose options hold [props] alone, with the
    path and the title of the component. *)
Definition video_report (props : VideoPlayerProps) (c : Plausible.call)
    : Prop :=
  In (Plausible.eventName c)
     ["Video Play"; "Video Pause"; "Video Progress"; "Video Complete"] /\
  (exists p, Plausible.options c = Some {["props" := Plausible.FProps p]}) /\
  Plausible.prop_of "videoPath" c
  = Some (Plausible.VString (videoPath props)) /\
  Plausible.prop_of "videoTitle" c = Some (Plausible.of_string (title props)).

(** The milestones a time update at the progress [cp] reports, given
    those tracked so far. *)
Definition reached (cp : float) (tracked : gset Z) : list Z :=
  List.filter
    (fun m => geb cp (number m) && negb (bool_decide (m ∈ tracked)))
    milestones.

(** The events whose handlers are guarded by [if (videoRef.current)]. *)
Definition needs_video (e : event) : bool :=
  match e with
  | ClickPlayPause | ClickMute | TimeUpdate | ClickProgress _ _ _ => true
  | _ => false
  end.

(** The click handlers of a view, in document order. *)
Definition click_handlers (view : React.element) : list React.prop_value :=
  flat_map
    (fun e => match React.prop "onClick" e with Some h => [h] | None => [] end)
    (React.descendants view).

End VideoPlayerSpec.

(** ** URL query strings

    [URLSearchParams]: the application/x-www-form-urlencoded serializer the
    template literals of the page actions call, and the parser that reads a
    query string back.  Both work on the bytes of the UTF-8 encoding of a
    string, which for ASCII text are its characters. *)

Module URLSearchParams.

(** The digit of a value below 16, upper case. *)
Definition hex_digit (n : nat) : ascii :=
  match n with
  | 0 => "0" | 1 => "1" | 2 => "2" | 3 => "3" | 4 => "4" | 5 => "5"
  | 6 => "6" | 7 => "7" | 8 => "8" | 9 => "9" | 10 => "A" | 11 => "B"
  | 12 => "C" | 13 => "D" | 14 => "E" | _ => "F"
  end%char.

(** The value of a hexadecimal digit of either case. *)
Definition hex_value (c : ascii) : option nat :=
  let n := nat_of_ascii c in
  if ((48 <=? n) && (n <=? 57))%nat then Some (n - 48)
  else if ((65 <=? n) && (n <=? 70))%nat then Some (n - 55)
  else if ((97 <=? n) && (n <=? 102))%nat then Some (n - 87)
  else None.

(** The bytes the serializer leaves as they are: ASCII letters and digits,
    [*], [-], [.] and [_]. *)
Definition unreserved (c : ascii) : bool :=
  let n := nat_of_ascii c in
  (((48 <=? n) && (n <=? 57)) || ((65 <=? n) && (n <=? 90))
   || ((97 <=? n) && (n <=? 122))
   || (n =? 42) || (n =? 45) || (n =? 46) || (n =? 95))%nat.

Definition serialize_byte (c : ascii) : string :=
  if Ascii.eqb c " " then "+"
  else if unreserved c then String c ""
  else
    let n := nat_of_ascii c in
    String "%" (String (hex_digit (n / 16)) (String (hex_digit (n mod 16)) "")).

Fixpoint serialize_bytes (s : string) : string :=
  match s with
  | EmptyString => ""
  | String c s' => serialize_byte c +:+ serialize_bytes s'
  end.

(** [new URLSearchParams(init).toString()] for the name-value pairs of
    [init], in order. *)
Fixpoint toString (l : list (string * string)) : string :=
  match l with
  | [] => ""
  | [(n, v)] => serialize_bytes n +:+ "=" +:+ serialize_bytes v
  | (n, v) :: l' =>
      serialize_bytes n +:+ "=" +:+ serialize_bytes v +:+ "&" +:+ toString l'
  end.

(** *** Reading a query string *)

(** [s.split(sep)] for a one-character separator. *)
Fixpoint split (sep : ascii) (s : string) : list string :=
  match s with
  | EmptyString => [""]
  | String c s' =>
      if Ascii.eqb c sep then "" :: split sep s'
      else
        match split sep s' with
        | h :: t => String c h :: t
        | [] => [String c ""]
        end
  end.

(** The name and the value of one sequence: the text before the first [=]
    and the text after it. *)
Fixpoint name_value (s : string) : string * string :=
  match s with
  | EmptyString => ("", "")
  | String c s' =>
      if Ascii.eqb c "=" then ("", s')
      else let (n, v) := name_value s' in (String c n, v)
  end.

Fixpoint plus_to_space (s : string) : string :=
  match s with
  | EmptyString => ""
  | String c s' =>
      String (if Ascii.eqb c "+" then " "%char else c) (plus_to_space s')
  end.

Fixpoint percent_decode (s : string) : string :=
  match s with
  | EmptyString => ""
  | String c t =>
      if Ascii.eqb c "%" then
        match t with
        | String h (String l s') =>
            match hex_value h, hex_value l with
            | Some a, Some b =>
                String (ascii_of_nat (16 * a + b)) (percent_decode s')
            | _, _ => String c (percent_decode t)
            end
        | _ => String c (percent_decode t)
        end
      else String c (percent_decode t)
  end.

Definition decode (s : string) : string := percent_decode (plus_to_space s).

(** The application/x-www-form-urlencoded parser: the name-value pairs of a
    query string, empty sequences skipped. *)
Definition parse (query : string) : list (string * string) :=
  map (fun seq => let (n, v) := name_value seq in (decode n, decode v))
      (List.filter (fun seq => negb (String.eqb seq "")) (split "&" query)).

(** [URLSearchParams.prototype.get]: the value of the first pair named
    [name]. *)
Fixpoint get (name : string) (l : list (string * string)) : option string :=
  match l with
  | [] => None
  | (n, v) :: l' => if String.eqb n name then Some v else get name l'
  end.

(** *** What is serialized is read back *)

(** Neither of the separators of a query string, nor the [#] that ends
    it. *)
Definition plain (c : ascii) : bool :=
  negb (Ascii.eqb c "&" || Ascii.eqb c "=" || Ascii.eqb c "#").

Fixpoint all_plain (s : string) : bool :=
  match s with
  | EmptyString => true
  | String c s' => plain c && all_plain s'
  end.

End URLSearchParams.

(** ** components/ai/page-actions *)

Module PageActions.
Import React.

(** One entry of the menu. *)
Record item : Type := mkItem {
  title : string;
  href : string;
  icon : element
}.

(** What a render returns, or the exception it throws. *)
Inductive outcome (A : Type) : Type :=
  | Return (a : A)
  | Throw (err : string).
Arguments Return {A} a.
Arguments Throw {A} err.

(** The text of the URL after its first [?], up to a [#]. *)
Fixpoint until_hash (s : string) : string :=
  match s with
  | EmptyString => ""
  | String c s' => if Ascii.eqb c "#" then "" else String c (until_hash s')
  end.

Fixpoint url_query (url : string) : string :=
  match url with
  | EmptyString => ""
  | String c s' => if Ascii.eqb c "?" then until_hash s' else url_query s'
  end.

Section ViewOptions.

(** [`${new URL(url, base)}`]: the serialization of [url] resolved against
    [base], [None] when the constructor throws a [TypeError]. *)
Variable URL : string -> string -> option string.

(** [cn] and [buttonVariants], the class-name helpers of the design
    system; [buttonVariants] takes the color, the size and the class
    name. *)
Variable cn : string -> string.
Variable buttonVariants : string -> string -> string -> string.

Definition optionClasses : string :=
  "text-sm p-2 rounded-lg inline-flex items-center gap-2 hover:text-fd-accent-foreground hover:bg-fd-accent [&_svg]:size-4".

(** The [useMemo] of [ViewOptions]; [origin] is [window.location.origin],
    [None] where there is no [window]. *)
Definition items (origin : option string) (markdownUrl githubUrl : string)
    : outcome (list item) :=
  match
    match origin with
    | Some o => URL markdownUrl o
    | None => Some "loading"
    end
  with
  | None => Throw "TypeError"
  | Some fullMarkdownUrl =>
      let q :=
        "Read " +:+ fullMarkdownUrl +:+ ", I want to ask questions about it." in
      Return
        [mkItem "Open in GitHub" githubUrl
           (El "svg"
              [("fill", PStr "currentColor"); ("role", PStr "img");
               ("viewBox", PStr "0 0 24 24")]
              [El "title" [] [Text "GitHub"];
               El "path" [("d", PStr "M12 .297c-6.63 0-12 5.373-12 12 0 5.303 3.438 9.8 8.205 11.385.6.113.82-.258.82-.577 0-.285-.01-1.04-.015-2.04-3.338.724-4.042-1.61-4.042-1.61C4.422 18.07 3.633 17.7 3.633 17.7c-1.087-.744.084-.729.084-.729 1.205.084 1.838 1.236 1.838 1.236 1.07 1.835 2.809 1.305 3.495.998.108-.776.417-1.305.76-1.605-2.665-.3-5.466-1.332-5.466-5.93 0-1.31.465-2.38 1.235-3.22-.135-.303-.54-1.523.105-3.176 0 0 1.005-.322 3.3 1.23.96-.267 1.98-.399 3-.405 1.02.006 2.04.138 3 .405 2.28-1.552 3.285-1.23 3.285-1.23.645 1.653.24 2.873.12 3.176.765.84 1.23 1.91 1.23 3.22 0 4.61-2.805 5.625-5.475 5.92.42.36.81 1.096.81 2.22 0 1.606-.015 2.896-.015 3.286 0 .315.21.69.825.57C20.565 22.092 24 17.592 24 12.297c0-6.627-5.373-12-12-12")] []]);
         mkItem "Open in ChatGPT"
           ("https://chatgpt.com/?"
            +:+ URLSearchParams.toString [("hints", "search"); ("q", q)])
           (El "svg"
              [("fill", PStr "currentColor"); ("viewBox", PStr "0 0 41 41");
               ("className", PStr "size-4")]
              [El "path" [("d", PStr "M37.532 16.87a9.963 9.963 0 0 0-.856-8.184 10.078 10.078 0 0 0-10.855-4.835A9.964 9.964 0 0 0 18.306.5a10.079 10.079 0 0 0-9.614 6.977 9.967 9.967 0 0 0-6.664 4.834 10.08 10.08 0 0 0 1.24 11.817 9.965 9.965 0 0 0 .856 8.185 10.079 10.079 0 0 0 10.855 4.835 9.965 9.965 0 0 0 7.516 3.35 10.078 10.078 0 0 0 9.617-6.981 9.967 9.967 0 0 0 6.663-4.834 10.079 10.079 0 0 0-1.243-11.813zM22.498 37.886a7.474 7.474 0 0 1-4.799-1.735c.061-.033.168-.091.237-.134l7.964-4.6a1.294 1.294 0 0 0 .655-1.134V19.054l3.366 1.944a.12.12 0 0 1 .066.092v9.299a7.505 7.505 0 0 1-7.49 7.496zm-16.106-6.88a7.471 7.471 0 0 1-.894-5.023c.06.036.162.099.237.141l7.964 4.6a1.297 1.297 0 0 0 1.308 0l9.724-5.614v3.888a.12.12 0 0 1-.048.103l-8.051 4.649a7.504 7.504 0 0 1-10.24-2.744zM4.297 13.62A7.469 7.469 0 0 1 8.2 10.333c0 .068-.004.19-.004.274v9.201a1.294 1.294 0 0 0 .654 1.132l9.723 5.614-3.366 1.944a.12.12 0 0 1-.114.01L7.04 23.856a7.504 7.504 0 0 1-2.743-10.237zm27.658 6.437l-9.724-5.615 3.367-1.943a.121.121 0 0 1 .113-.01l8.052 4.648a7.498 7.498 0 0 1-1.158 13.528v-9.476a1.293 1.293 0 0 0-.65-1.132zm3.35-5.043a7.395 7.395 0 0 0-.236-.141l-7.965-4.6a1.298 1.298 0 0 0-1.308 0l-9.723 5.614v-3.888a.12.12 0 0 1 .048-.103l8.05-4.645a7.497 7.497 0 0 1 11.135 7.763zm-21.063 6.929l-3.367-1.944a.12.12 0 0 1-.065-.092v-9.299a7.497 7.497 0 0 1 12.293-5.756 6.94 6.94 0 0 0-.236.134l-7.965 4.6a1.294 1.294 0 0 0-.654 1.132l-.006 11.225zM16.071 18l4.33-2.501 4.332 2.5v5l-4.331 2.5-4.331-2.5V18z")] []]);
         mkItem "Open in Claude"
           ("https://claude.ai/new?" +:+ URLSearchParams.toString [("q", q)])
           (El "svg"
              [("fill", PStr "currentColor"); ("viewBox", PStr "0 0 40 40");
               ("className", PStr "size-4")]
              [El "path" [("d", PStr "m7.75 26.27 7.77-4.36.13-.38-.13-.21h-.38l-1.3-.08-4.44-.12-3.85-.16-3.73-.2-.94-.2-.88-1.16.09-.58.79-.53 1.13.1 2.5.17 3.75.26 2.72.16 4.03.42h.64l.09-.26-.22-.16-.17-.16-3.88-2.63-4.2-2.78-2.2-1.6-1.19-.81-.6-.76-.26-1.66 1.08-1.19 1.45.1.37.1 1.47 1.13 3.14 2.43 4.1 3.02.6.5.24-.17.03-.12-.27-.45-2.23-4.03-2.38-4.1-1.06-1.7-.28-1.02c-.1-.42-.17-.77-.17-1.2l1.23-1.67.68-.22 1.64.22.69.6 1.02 2.33 1.65 3.67 2.56 4.99.75 1.48.4 1.37.15.42h.26v-.24l.21-2.81.39-3.45.38-4.44.13-1.25.62-1.5 1.23-.81.96.46.79 1.13-.11.73-.47 3.05-.92 4.78-.6 3.2h.35l.4-.4 1.62-2.15 2.72-3.4 1.2-1.35 1.4-1.49.9-.71h1.7l1.25 1.86-.56 1.92-1.75 2.22-1.45 1.88-2.08 2.8-1.3 2.24.12.18.31-.03 4.7-1 2.54-.46 3.03-.52 1.37.64.15.65-.54 1.33-3.24.8-3.8.76-5.66 1.34-.07.05.08.1 2.55.24 1.09.06h2.67l4.97.37 1.3.86.78 1.05-.13.8-2 1.02-2.7-.64-6.3-1.5-2.16-.54h-.3v.18l1.8 1.76 3.3 2.98 4.13 3.84.21.95-.53.75-.56-.08-3.63-2.73-1.4-1.23-3.17-2.67h-.21v.28l.73 1.07 3.86 5.8.2 1.78-.28.58-1 .35-1.1-.2-2.26-3.17-2.33-3.57-1.88-3.2-.23.13-1.11 11.95-.52.61-1.2.46-1-.76-.53-1.23.53-2.43.64-3.17.52-2.52.47-3.13.28-1.04-.02-.07-.23.03-2.36 3.24-3.59 4.85-2.84 3.04-.68.27-1.18-.61.11-1.09.66-.97 3.93-5 2.37-3.1 1.53-1.79-.01-.26h-.09l-10.44 6.78-1.86.24-.8-.75.1-1.23.38-.4 3.14-2.16z")] []]);
         mkItem "Open in T3 Chat"
           ("https://t3.chat/new?" +:+ URLSearchParams.toString [("q", q)])
           (El "SearchIcon" [("className", PStr "size-4")] []);
         mkItem "Open in Scira AI"
           ("https://scira.ai/?" +:+ URLSearchParams.toString [("q", q)])
           (El "MessageCircleIcon" [("className", PStr "size-4")] [])]
  end.

Definition ViewOptions (origin : option string)
    (markdownUrl githubUrl : string) : outcome element :=
  match items origin markdownUrl githubUrl with
  | Throw err => Throw err
  | Return its =>
      Return
        (El "Popover" []
           [El "PopoverTrigger"
              [("className", PStr (cn (buttonVariants "secondary" "sm" "gap-2")))]
              [Text "Open";
               El "ChevronDown"
                 [("className", PStr "size-3.5 text-fd-muted-foreground")] []];
            El "PopoverContent"
              [("className", PStr "flex flex-col overflow-auto")]
              (map (fun it =>
                      El "a"
                        [("key", PStr (href it));
                         ("href", PStr (href it));
                         ("rel", PStr "noreferrer noopener");
                         ("target", PStr "_blank");
                         ("className", PStr (cn optionClasses))]
                        [icon it;
                         Text (title it);
                         El "ExternalLinkIcon"
                           [("className", PStr "text-fd-muted-foreground size-3.5 ms-auto")]
                           []])
                   its)])
  end.

End ViewOptions.

Fixpoint no_hash (s : string) : bool :=
  match s with
  | EmptyString => true
  | String c s' => negb (Ascii.eqb c "#") && no_hash s'
  end.

End PageActions.

(** ** components/ai/page-actions: the copy button *)

Module CopyButton.

(** The module-level [cache], the [isLoading] state of the button, the
    text on the clipboard, and the URLs fetched so far. *)
Record State : Type := mkState {
  cache : gmap string string;
  isLoading : bool;
  clipboard : option string;
  fetched : list string
}.

Definition set_cache (v : gmap string string) (st : State) : State :=
  mkState v (isLoading st) (clipboard st) (fetched st).

Definition set_isLoading (v : bool) (st : State) : State :=
  mkState (cache st) v (clipboard st) (fetched st).

Definition set_clipboard (v : option string) (st : State) : State :=
  mkState (cache st) (isLoading st) v (fetched st).

Definition set_fetched (v : list string) (st : State) : State :=
  mkState (cache st) (isLoading st) (clipboard st) v.

(** How the promise of the callback settles, and the state it leaves. *)
Inductive settled : Type :=
  | Fulfilled (st : State)
  | Rejected (err : string) (st : State).

Definition state_of (r : settled) : State :=
  match r with
  | Fulfilled st => st
  | Rejected _ st => st
  end.

Section Callback.

(** [fetch(url).then(res => res.text())]: the text of the response, or the
    error with which the request or the reading of the body fails. *)
Variable fetch : string -> string + string.

(** Whether the page may write to the clipboard. *)
Variable writable : bool.

(** [navigator.clipboard.writeText(text)] *)
Definition writeText (text : string) (st : State) : settled :=
  if writable then Fulfilled (set_clipboard (Some text) st)
  else Rejected "NotAllowedError" st.

(** The callback [LLMCopyButton] gives to [useCopyButton], run until the
    promise it returns and the promise of the [ClipboardItem] have
    settled. *)
Definition onCopy (markdownUrl : string) (st : State) : settled :=
  let cached := cache st !! markdownUrl in
  if JS.truthy_opt cached then writeText (default "" cached) st
  else
    let st := set_isLoading true st in
    let written :=
      (* try *)
      let st := set_fetched (fetched st ++ [markdownUrl]) st in
      match fetch markdownUrl with
      | inl content =>
          let st := set_cache (<[markdownUrl := content]> (cache st)) st in
          writeText content st
      | inr err => Rejected err st
      end in
    (* finally *)
    match written with
    | Fulfilled st => Fulfilled (set_isLoading false st)
    | Rejected err st => Rejected err (set_isLoading false st)
    end.

(** The clicks on the button, one after the other. *)
Definition clicks (markdownUrl : string) (n : nat) (st : State) : State :=
  Nat.iter n (fun st => state_of (onCopy markdownUrl st)) st.

End Callback.

End CopyButton.


(** ** mdx-components and app/docs/[[...slug]]/page *)

Module DocsPage.
Import React.

(** The components MDX content may use: the name of each tag with the
    implementation registered for it. *)
Definition MDXComponents : Type := gmap string string.

(** [page.data] of a page of the source. *)
Record PageData : Type := mkPageData {
  title : string;
  description : option string;
  toc : list string;
  full : option bool;
  body : MDXComponents -> element     (* the compiled MDX content *)
}.

Record Metadata : Type := mkMetadata {
  meta_title : string;
  meta_description : option string
}.

(** What a route function does: it returns, or it calls [notFound()],
    whose exception the framework answers with the 404 page. *)
Inductive response (A : Type) : Type :=
  | Return (a : A)
  | NotFound.
Arguments Return {A} a.
Arguments NotFound {A}.

Section Route.

(** [source.getPage] of lib/source, the loader of the content. *)
Variable getPage : option (list string) -> option PageData.

(** The component maps of fumadocs-ui/mdx and fumadocs-twoslash/ui. *)
Variable defaultMdxComponents : MDXComponents.
Variable Twoslash : MDXComponents.

(** [getMDXComponents]: an object literal, in which a later key replaces
    an earlier one; the union of maps keeps the left one, so the spreads
    are written last first. *)
Definition getMDXComponents (components : option MDXComponents)
    : MDXComponents :=
  default ∅ components
  ∪ Twoslash
  ∪ {["Tab" := "Tab"]}
  ∪ {["Tabs" := "Tabs"]}
  ∪ {["pre" := "CodeBlock > Pre"]}
  ∪ {["img" := "ImageZoom"]}
  ∪ defaultMdxComponents.

(** The components the page passes to [getMDXComponents]. *)
Definition page_components : MDXComponents :=
  {["a" := "createRelativeLink(source, page)"]}
  ∪ {["img" := "ImageZoom"]}
  ∪ {["TypeTable" := "TypeTable"]}
  ∪ {["Steps" := "Steps"]}
  ∪ {["Step" := "Step"]}
  ∪ {["Tabs" := "Tabs"]}
  ∪ {["Tab" := "Tab"]}
  ∪ {["Files" := "Files"]}
  ∪ {["Folder" := "Folder"]}
  ∪ {["File" := "File"]}
  ∪ {["Callout" := "Callout"]}
  ∪ {["Cards" := "Cards"]}
  ∪ {["Card" := "Card"]}
  ∪ {["pre" := "CodeBlock > Pre"]}.

Definition Page (slug : option (list string)) : response element :=
  match getPage slug with
  | None => NotFound
  | Some page =>
      Return
        (El "DocsPage"
           ([("toc", PStrs (toc page))]
            ++ match full page with
               | Some b => [("full", PBool b)]
               | None => []
               end
            ++ [("tableOfContent.style", PStr "clerk")])
           [El "DocsTitle" [] [Text (title page)];
            El "DocsDescription" [("className", PStr "mb-2")]
              match description page with
              | Some d => [Text d]
              | None => []
              end;
            El "DocsBody" []
              [body page (getMDXComponents (Some page_components))]])
  end.

Definition generateMetadata (slug : option (list string))
    : response Metadata :=
  match getPage slug with
  | None => NotFound
  | Some page => Return (mkMetadata (title page) (description page))
  end.

End Route.

End DocsPage.

(** * Lemmas *)

Section StringFacts.
Import JS.

Lemma strip_prefix_app p s : strip_prefix p (p +:+ s) = Some s.
Proof.
  induction p as [|a p IH]; simpl; [reflexivity|].
  rewrite Ascii.eqb_refl. exact IH.
Qed.

Lemma strip_prefix_Some p s r : strip_prefix p s = Some r -> s = p +:+ r.
Proof.
  revert s. induction p as [|a p IH]; intros s; simpl.
  - intros [= ->]. reflexivity.
  - destruct s as [|b s]; [discriminate|].
    destruct (Ascii.eqb a b) eqn:E; [|discriminate].
    apply Ascii.eqb_eq in E. subst b. intros H. f_equal. apply IH, H.
Qed.

Lemma string_take_app w s : take (String.length w) (w +:+ s) = w.
Proof. induction w as [|c w IH]; simpl; [destruct s|]; congruence. Qed.

Lemma string_length_app (a b : string) :
  String.length (a +:+ b) = String.length a + String.length b.
Proof. induction a as [|c a IH]; simpl; [reflexivity|]. now rewrite IH. Qed.

Lemma string_app_assoc (a b c : string) : (a +:+ b) +:+ c = a +:+ (b +:+ c).
Proof. induction a as [|x a IH]; simpl; [reflexivity|]. now rewrite IH. Qed.

Lemma string_app_empty_r (a : string) : a +:+ "" = a.
Proof. induction a as [|x a IH]; simpl; [reflexivity|]. now rewrite IH. Qed.

End StringFacts.

Section RegExpFacts.
Import JS RegExp.

#[local] Hint Constructors matches : core.

Lemma repeat_class_complete p w s k :
  all_chars p w = true -> k s <> None -> repeat_class p (w +:+ s) k <> None.
Proof.
  induction w as [|c w IH]; simpl; intros Hall Hk.
  - destruct s as [|c s]; simpl; [exact Hk|].
    destruct (p c); [|exact Hk].
    destruct (repeat_class p s k); [discriminate|exact Hk].
  - apply andb_prop in Hall as [Hc Hw]. rewrite Hc.
    specialize (IH Hw Hk). destruct (repeat_class p (w +:+ s) k); [discriminate|].
    contradiction.
Qed.

Lemma repeat_class_sound p s k y :
  repeat_class p s k = Some y ->
  exists w s', s = w +:+ s' /\ all_chars p w = true /\ k s' = Some y.
Proof.
  induction s as [|c s IH]; simpl; intros H.
  - exists "", "". auto.
  - destruct (p c) eqn:Hc.
    + destruct (repeat_class p s k) eqn:Hr.
      * injection H as ->. destruct (IH eq_refl) as (w & s' & -> & Hw & Hk).
        exists (String c w), s'. simpl. rewrite Hc, Hw. auto.
      * exists "", (String c s). auto.
    + exists "", (String c s). auto.
Qed.

(** Completeness of the backtracking matcher: when a prefix of the input is
    in the language of [r] and the continuation accepts what follows, the
    matcher succeeds. *)
Lemma matcher_complete r w :
  matches r w ->
  forall s c k, (forall c', k (mkState s c') <> None) ->
  matcher r (mkState (w +:+ s) c) k <> None.
Proof.
  induction 1 as [w|p a Ha|r1 r2 w _ IH|r1 r2 w _ IH
                 |r1 r2 w1 w2 _ IH1 _ IH2|p w Hw|p a w Ha Hw|r w _ IH];
    intros s c k Hk; simpl.
  - rewrite strip_prefix_app. apply Hk.
  - rewrite Ha. apply Hk.
  - specialize (IH s c k Hk).
    destruct (matcher r1 (mkState (w +:+ s) c) k); [discriminate|contradiction].
  - destruct (matcher r1 (mkState (w +:+ s) c) k); [discriminate|].
    apply IH, Hk.
  - rewrite string_app_assoc. apply IH1. intros c'. apply IH2, Hk.
  - apply repeat_class_complete; [exact Hw|apply Hk].
  - rewrite Ha. apply repeat_class_complete; [exact Hw|apply Hk].
  - apply IH. intros c'. simpl. apply Hk.
Qed.

(** Soundness: a successful run read a prefix in the language of [r] and
    then ran the continuation on the rest. *)
Lemma matcher_sound r :
  forall x k y, matcher r x k = Some y ->
  exists w s' c', remaining x = w +:+ s' /\ matches r w /\
                  k (mkState s' c') = Some y.
Proof.
  induction r as [w|p|r1 IH1 r2 IH2|r1 IH1 r2 IH2|p|p|r IH];
    intros x k y; simpl; intros H.
  - destruct (strip_prefix w (remaining x)) as [s'|] eqn:E; [|discriminate].
    apply strip_prefix_Some in E. eauto 7.
  - destruct (remaining x) as [|c s'] eqn:E; [discriminate|].
    destruct (p c) eqn:Hc; [|discriminate].
    exists (String c ""), s', (capture1 x). auto.
  - destruct (matcher r1 x k) eqn:E.
    + injection H as ->. destruct (IH1 _ _ _ E) as (w & s' & c' & ? & ? & ?).
      eauto 8.
    + destruct (IH2 _ _ _ H) as (w & s' & c' & ? & ? & ?). eauto 8.
  - destruct (IH1 _ _ _ H) as (w1 & s1 & c1 & E1 & M1 & K1).
    destruct (IH2 _ _ _ K1) as (w2 & s2 & c2 & E2 & M2 & K2).
    simpl in E2. subst s1. exists (w1 +:+ w2), s2, c2.
    rewrite string_app_assoc. auto.
  - destruct (repeat_class_sound _ _ _ _ H) as (w & s' & ? & ? & ?). eauto 8.
  - destruct (remaining x) as [|c s0] eqn:E; [discriminate|].
    destruct (p c) eqn:Hc; [|discriminate].
    destruct (repeat_class_sound _ _ _ _ H) as (w & s' & -> & ? & ?).
    exists (String c w), s', (capture1 x). auto.
  - destruct (IH _ _ _ H) as (w & s' & c' & E & M & K). simpl in K. eauto 8.
Qed.

Lemma exec_None_no_occurrence r s : exec r s = None -> ~ occurs r s.
Proof.
  induction s as [|a s IH]; simpl.
  - destruct (matcher r (mkState "" None) Some) eqn:E; [discriminate|].
    intros _ (pre & w & post & Hs & Hm).
    destruct pre; [|discriminate]. simpl in Hs.
    destruct w; [|discriminate]. simpl in Hs. subst post.
    apply (matcher_complete r "" Hm "" None Some); [discriminate|exact E].
  - destruct (matcher r (mkState (String a s) None) Some) eqn:E; [discriminate|].
    intros Hex (pre & w & post & Hs & Hm).
    destruct pre as [|b pre]; simpl in Hs.
    + apply (matcher_complete r w Hm post None Some); [discriminate|].
      rewrite <- Hs. exact E.
    + injection Hs as -> ->. apply (IH Hex). exists pre, w, post. auto.
Qed.

Lemma exec_Some_occurrence r s m : exec r s = Some m -> occurs r s.
Proof.
  revert m. induction s as [|a s IH]; intros m; simpl.
  - destruct (matcher r (mkState "" None) Some) eqn:E; [|discriminate].
    intros _. destruct (matcher_sound _ _ _ _ E) as (w & s' & c' & Hs & Hm & _).
    simpl in Hs. exists "", w, s'. auto.
  - destruct (matcher r (mkState (String a s) None) Some) eqn:E.
    + intros _.
      destruct (matcher_sound _ _ _ _ E) as (w & s' & c' & Hs & Hm & _).
      simpl in Hs. exists "", w, s'. auto.
    + intros H. destruct (IH _ H) as (pre & w & post & -> & Hm).
      exists (String a pre), w, post. auto.
Qed.

(** [exec] answers [null] exactly on the inputs no substring of which is in
    the language of the pattern. *)
Lemma exec_None_iff r s : exec r s = None <-> ~ occurs r s.
Proof.
  split; [apply exec_None_no_occurrence|].
  intros Hno. destruct (exec r s) eqn:E; [|reflexivity].
  exfalso. eauto using exec_Some_occurrence.
Qed.

End RegExpFacts.

Section VideoShowcaseFacts.
Import JS RegExp React VideoShowcase.

Lemma repeat_class_greedy p w rest k :
  all_chars p w = true -> k rest <> None ->
  repeat_class p (w +:+ rest) k <> None.
Proof. apply repeat_class_complete. Qed.

Lemma repeat_class_longest p w rest k :
  all_chars p w = true -> id_ends_at rest = true -> p = not_delimiter ->
  k rest <> None -> repeat_class p (w +:+ rest) k = k rest.
Proof.
  intros Hw Hrest -> Hk. induction w as [|c w IH]; simpl in *.
  - destruct rest as [|c rest]; simpl in *; [reflexivity|].
    apply negb_true_iff in Hrest. rewrite Hrest. reflexivity.
  - apply andb_prop in Hw as [Hc Hw]. rewrite Hc, (IH Hw).
    destruct (k rest); [reflexivity|contradiction].
Qed.

Lemma capture_of_run (w rest : string) :
  take (String.length (w +:+ rest) - String.length rest) (w +:+ rest) = w.
Proof.
  rewrite string_length_app.
  replace (String.length w + String.length rest - String.length rest)
    with (String.length w) by lia.
  apply string_take_app.
Qed.

(** At an index where a format starts and an id follows, the first pattern
    matches and captures the id. *)
Lemma pattern_direct_at fmt id rest :
  In fmt formats -> id <> "" -> all_chars not_delimiter id = true ->
  id_ends_at rest = true ->
  matcher pattern_direct (mkState (fmt +:+ id +:+ rest) None) Some
  = Some (mkState rest (Some id)).
Proof.
  intros Hf Hne Hid Hrest.
  destruct id as [|c id]; [contradiction|]. simpl in Hid.
  apply andb_prop in Hid as [Hc Hid].
  assert (Hrun : forall k : string -> option MatchState, k rest <> None ->
            repeat_class not_delimiter (id +:+ rest) k = k rest)
    by (intros k Hk; now apply repeat_class_longest).
  pose proof (capture_of_run (String c id) rest) as Hcap.
  simpl in Hf.
  destruct Hf as [<-|[<-|[<-|[]]]]; cbn -[Nat.sub take String.length];
    rewrite Hc, Hrun by discriminate; cbn -[Nat.sub take String.length];
    do 3 f_equal; exact Hcap.
Qed.

Lemma pattern_direct_not_at s :
  starts_with_format s = false ->
  matcher pattern_direct (mkState s None) Some = None.
Proof.
  unfold starts_with_format, formats. cbn [existsb]. intros H.
  apply orb_false_iff in H as [H1 H]. apply orb_false_iff in H as [H2 H].
  apply orb_false_iff in H as [H3 _].
  cbn [pattern_direct matcher remaining].
  destruct (strip_prefix "youtube.com/watch?v=" s); [discriminate|].
  destruct (strip_prefix "youtu.be/" s); [discriminate|].
  destruct (strip_prefix "youtube.com/embed/" s); [discriminate|].
  reflexivity.
Qed.

Lemma exec_pattern_direct_skip pre s :
  no_format_before (String.length pre) (pre +:+ s) = true ->
  exec pattern_direct (pre +:+ s) = exec pattern_direct s.
Proof.
  induction pre as [|a pre IH]; [reflexivity|].
  cbn [String.length no_format_before]. intros H.
  apply andb_prop in H as [H1 H2]. apply negb_true_iff in H1.
  change (String a pre +:+ s) with (String a (pre +:+ s)) in *.
  cbn [exec]. rewrite (pattern_direct_not_at _ H1). apply IH, H2.
Qed.

Lemma exec_at_start r s y :
  matcher r (mkState s None) Some = Some y ->
  match1 <$> exec r s = Some (capture1 y).
Proof. intros H. destruct s; cbn [exec]; rewrite H; reflexivity. Qed.

Lemma extract_first_format pre fmt id rest :
  In fmt formats -> id <> "" -> all_chars not_delimiter id = true ->
  id_ends_at rest = true ->
  no_format_before (String.length pre) (pre +:+ fmt +:+ id +:+ rest) = true ->
  extractYouTubeId (pre +:+ fmt +:+ id +:+ rest) = IdStr id.
Proof.
  intros Hf Hne Hid Hrest Hpre.
  unfold extractYouTubeId, patterns. cbn [first_capture]. unfold string_match.
  rewrite (exec_pattern_direct_skip _ _ Hpre).
  pose proof (exec_at_start _ _ _ (pattern_direct_at _ _ _ Hf Hne Hid Hrest)) as E.
  destruct (exec pattern_direct (fmt +:+ id +:+ rest)) as [m|]; [|discriminate].
  cbn in E. injection E as ->. reflexivity.
Qed.

Lemma first_capture_null ps url :
  first_capture ps url = IdNull <-> Forall (fun p => ~ occurs p url) ps.
Proof.
  induction ps as [|p ps IH]; cbn [first_capture].
  - split; [constructor|reflexivity].
  - unfold string_match. destruct (exec p url) as [m|] eqn:E.
    + split.
      * destruct (match1 m); discriminate.
      * intros H. inversion H as [|? ? Hp _]; subst.
        apply exec_None_iff in Hp. congruence.
    + rewrite IH. apply exec_None_iff in E. split.
      * intros H. constructor; assumption.
      * intros H. inversion H; assumption.
Qed.

(** *** Capture 1 is never empty *)

Lemma matcher_cat_tail r1 r2 x k y :
  matcher (Cat r1 r2) x k = Some y -> exists x', matcher r2 x' k = Some y.
Proof.
  cbn [matcher]. intros H.
  destruct (matcher_sound _ _ _ _ H) as (w & s' & c' & _ & _ & Hk). eauto.
Qed.

Lemma group_plus_capture p x y :
  matcher (Group (Plus p)) x Some = Some y ->
  exists c w, capture1 y = Some (String c w).
Proof.
  cbn [matcher]. destruct (remaining x) as [|c s] eqn:E; [discriminate|].
  destruct (p c); [|discriminate]. intros H.
  apply repeat_class_sound in H as (w & s' & -> & _ & Hk).
  injection Hk as <-. cbn [capture1 remaining String.length].
  rewrite string_length_app.
  replace (S (String.length w + String.length s') - String.length s')
    with (S (String.length w)) by lia.
  cbn [take]. eauto.
Qed.

Lemma pattern_capture r x y :
  In r patterns -> matcher r x Some = Some y ->
  exists c w, capture1 y = Some (String c w).
Proof.
  intros [<-|[<-|[]]] H.
  - apply matcher_cat_tail in H as [x1 H]. eapply group_plus_capture, H.
  - apply matcher_cat_tail in H as [x1 H].
    apply matcher_cat_tail in H as [x2 H].
    apply matcher_cat_tail in H as [x3 H]. eapply group_plus_capture, H.
Qed.

Lemma exec_capture r s m :
  exec r s = Some m ->
  exists x y, matcher r x Some = Some y /\ match1 m = capture1 y.
Proof.
  induction s as [|a s IH]; cbn [exec].
  - destruct (matcher r (mkState "" None) Some) eqn:E; [|discriminate].
    intros [= <-]. eauto.
  - destruct (matcher r (mkState (String a s) None) Some) eqn:E.
    + intros [= <-]. eauto.
    + exact IH.
Qed.

Lemma first_capture_nonempty ps url :
  incl ps patterns ->
  first_capture ps url = IdNull \/
  exists c w, first_capture ps url = IdStr (String c w).
Proof.
  induction ps as [|p ps IH]; intros Hin; cbn [first_capture]; [now left|].
  unfold string_match. destruct (exec p url) as [m|] eqn:E.
  - right. apply exec_capture in E as (x & y & Hm & ->).
    apply pattern_capture in Hm as (c & w & ->); [eauto|].
    apply Hin. now left.
  - apply IH. intros q Hq. apply Hin. now right.
Qed.

(** [extractYouTubeId] returns [null] or a non-empty string, never
    [undefined] and never the empty string. *)
Lemma extractYouTubeId_cases url :
  extractYouTubeId url = IdNull \/
  exists c w, extractYouTubeId url = IdStr (String c w).
Proof. apply first_capture_nonempty, incl_refl. Qed.

End VideoShowcaseFacts.

Section PlausibleFacts.
Import Plausible.

Lemma trackEvent_props name p l :
  trackEvent name (Some p) None l = l ++ [props_call name p].
Proof.
  unfold trackEvent, plausible, props_call.
  rewrite insert_empty, map_size_singleton. reflexivity.
Qed.

Lemma prop_of_props_call key name p :
  prop_of key (props_call name p) = assoc key p.
Proof.
  unfold prop_of, props_call. cbn [options].
  rewrite lookup_singleton_eq. reflexivity.
Qed.

Lemma count_calls_snoc f l c :
  count_calls f (l ++ [c]) = count_calls f l + (if f c then 1 else 0).
Proof.
  unfold count_calls. rewrite List.filter_app, List.length_app. cbn.
  destruct (f c); reflexivity.
Qed.

End PlausibleFacts.

Section URLSearchParamsFacts.
Import URLSearchParams.

Lemma all_plain_app a b :
  all_plain (a +:+ b) = all_plain a && all_plain b.
Proof.
  induction a as [|c a IH]; simpl; [reflexivity|].
  rewrite IH. apply andb_assoc.
Qed.

Lemma serialize_byte_plain c : all_plain (serialize_byte c) = true.
Proof. destruct c as [[] [] [] [] [] [] [] []]; reflexivity. Qed.

Lemma serialize_bytes_plain s : all_plain (serialize_bytes s) = true.
Proof.
  induction s as [|c s IH]; simpl; [reflexivity|].
  rewrite all_plain_app, serialize_byte_plain, IH. reflexivity.
Qed.

Lemma plus_to_space_app a b :
  plus_to_space (a +:+ b) = plus_to_space a +:+ plus_to_space b.
Proof. induction a as [|c a IH]; simpl; [reflexivity|]. now rewrite IH. Qed.

Lemma decode_serialized_byte c r :
  percent_decode (plus_to_space (serialize_byte c) +:+ r)
  = String c (percent_decode r).
Proof. destruct c as [[] [] [] [] [] [] [] []]; reflexivity. Qed.

Lemma decode_serialize_bytes s : decode (serialize_bytes s) = s.
Proof.
  unfold decode. induction s as [|c s IH]; simpl; [reflexivity|].
  rewrite plus_to_space_app, decode_serialized_byte, IH. reflexivity.
Qed.

Lemma plain_not_amp c : plain c = true -> Ascii.eqb c "&" = false.
Proof.
  unfold plain. intros H. apply negb_true_iff in H.
  apply orb_false_iff in H as [H _]. apply orb_false_iff in H as [H _].
  exact H.
Qed.

Lemma plain_not_eq c : plain c = true -> Ascii.eqb c "=" = false.
Proof.
  unfold plain. intros H. apply negb_true_iff in H.
  apply orb_false_iff in H as [H _]. apply orb_false_iff in H as [_ H].
  exact H.
Qed.

Lemma split_plain a :
  all_plain a = true -> split "&" a = [a].
Proof.
  induction a as [|c a IH]; simpl; [reflexivity|]. intros H.
  apply andb_prop in H as [Hc Ha].
  rewrite (plain_not_amp _ Hc), (IH Ha). reflexivity.
Qed.

Lemma split_eq_plain a b :
  all_plain a = true -> all_plain b = true ->
  split "&" (a +:+ "=" +:+ b) = [a +:+ "=" +:+ b].
Proof.
  intros Ha Hb. induction a as [|c a IH]; simpl.
  - rewrite (split_plain _ Hb). reflexivity.
  - simpl in Ha. apply andb_prop in Ha as [Hc Ha].
    specialize (IH Ha). simpl in IH.
    rewrite (plain_not_amp _ Hc), IH. reflexivity.
Qed.

Lemma split_at_amp b rest :
  all_plain b = true ->
  split "&" (b +:+ String "&" rest) = b :: split "&" rest.
Proof.
  intros Hb. induction b as [|d b IH]; simpl; [reflexivity|].
  simpl in Hb. apply andb_prop in Hb as [Hd Hb].
  rewrite (plain_not_amp _ Hd), (IH Hb). reflexivity.
Qed.

Lemma split_sequence a b rest :
  all_plain a = true -> all_plain b = true ->
  split "&" (a +:+ "=" +:+ b +:+ "&" +:+ rest)
  = (a +:+ "=" +:+ b) :: split "&" rest.
Proof.
  intros Ha Hb. induction a as [|c a IH]; simpl.
  - rewrite (split_at_amp _ _ Hb). reflexivity.
  - simpl in Ha. apply andb_prop in Ha as [Hc Ha].
    specialize (IH Ha). simpl in IH.
    rewrite (plain_not_amp _ Hc), IH. reflexivity.
Qed.

Lemma name_value_sequence a b :
  all_plain a = true -> name_value (a +:+ "=" +:+ b) = (a, b).
Proof.
  intros Ha. induction a as [|c a IH]; simpl; [reflexivity|].
  simpl in Ha. apply andb_prop in Ha as [Hc Ha].
  specialize (IH Ha). simpl in IH.
  rewrite (plain_not_eq _ Hc), IH. reflexivity.
Qed.

Lemma sequence_not_empty a b : String.eqb (a +:+ "=" +:+ b) "" = false.
Proof. destruct a; reflexivity. Qed.

(** The parser reads back the pairs the serializer wrote. *)
Lemma parse_toString l : parse (toString l) = l.
Proof.
  unfold parse. induction l as [|[n v] l IH]; [reflexivity|].
  pose proof (serialize_bytes_plain n) as Hn.
  pose proof (serialize_bytes_plain v) as Hv.
  destruct l as [|p l].
  - cbn [toString]. rewrite (split_eq_plain _ _ Hn Hv).
    cbn [List.filter]. rewrite sequence_not_empty. cbn [negb map].
    rewrite (name_value_sequence _ _ Hn), !decode_serialize_bytes.
    reflexivity.
  - change (toString ((n, v) :: p :: l))
      with (serialize_bytes n +:+ "=" +:+ serialize_bytes v +:+ "&"
            +:+ toString (p :: l)).
    rewrite (split_sequence _ _ _ Hn Hv).
    cbn [List.filter]. rewrite sequence_not_empty. cbn [negb map].
    rewrite (name_value_sequence _ _ Hn), !decode_serialize_bytes, IH.
    reflexivity.
Qed.

End URLSearchParamsFacts.

Section PageActionsFacts.
Import React PageActions.

Lemma until_hash_no_hash s : no_hash s = true -> until_hash s = s.
Proof.
  induction s as [|c s IH]; simpl; [reflexivity|]. intros H.
  apply andb_prop in H as [Hc Hs]. apply negb_true_iff in Hc.
  rewrite Hc, (IH Hs). reflexivity.
Qed.

Lemma no_hash_app a b : no_hash (a +:+ b) = no_hash a && no_hash b.
Proof.
  induction a as [|c a IH]; simpl; [reflexivity|].
  rewrite IH. apply andb_assoc.
Qed.

Lemma plain_no_hash s : URLSearchParams.all_plain s = true -> no_hash s = true.
Proof.
  induction s as [|c s IH]; simpl; [reflexivity|]. intros H.
  apply andb_prop in H as [Hc Hs]. rewrite (IH Hs), andb_true_r.
  unfold URLSearchParams.plain in Hc. apply negb_true_iff in Hc.
  apply orb_false_iff in Hc as [_ Hc]. rewrite Hc. reflexivity.
Qed.

Lemma toString_no_hash l : no_hash (URLSearchParams.toString l) = true.
Proof.
  induction l as [|[n v] l IH]; [reflexivity|].
  pose proof (plain_no_hash _ (serialize_bytes_plain n)) as Hn.
  pose proof (plain_no_hash _ (serialize_bytes_plain v)) as Hv.
  destruct l as [|p l].
  - cbn [URLSearchParams.toString]. rewrite !no_hash_app, Hn, Hv. reflexivity.
  - change (URLSearchParams.toString ((n, v) :: p :: l))
      with (URLSearchParams.serialize_bytes n +:+ "=" +:+
            URLSearchParams.serialize_bytes v +:+ "&" +:+
            URLSearchParams.toString (p :: l)).
    rewrite !no_hash_app, Hn, Hv, IH. reflexivity.
Qed.

(** Where there is no window, the prompt names the placeholder. *)
Lemma items_without_window
    (URL : string -> string -> option string) (markdownUrl githubUrl : string) :
  exists its,
    items URL None markdownUrl githubUrl = Return its /\
    forall it, In it its -> title it <> "Open in GitHub" ->
      URLSearchParams.get "q" (URLSearchParams.parse (url_query (href it)))
      = Some "Read loading, I want to ask questions about it.".
Proof.
  eexists. split; [reflexivity|].
  intros it [<-|[<-|[<-|[<-|[<-|[]]]]]] Hne; cbn [title href] in *;
    try contradiction; reflexivity.
Qed.

End PageActionsFacts.

(** ** A session of the video player

    What every run of events from the initial state keeps true. *)

Section VideoPlayerSession.
Import VideoPlayer.
Variable Math_round : float -> float.
Variable props : VideoPlayerProps.
Variable w : option Window.

Lemma inv_frame st st' :
  analytics st' = analytics st -> analytics_inv w st -> analytics_inv w st'.
Proof.
  unfold analytics. intros [= E1 E2 E3 E4] [H1 H2 H3 H4].
  constructor; rewrite ?E1, ?E2, ?E3, ?E4; assumption.
Qed.

Lemma preserves_bind {A B} I (m : M A) (f : A -> M B) :
  preserves I m -> (forall a, preserves I (f a)) -> preserves I (bind m f).
Proof.
  intros Hm Hf st H. unfold bind. specialize (Hm st H).
  destruct (m st) as [a st'|e st']; cbn in *; [apply Hf|]; assumption.
Qed.

Lemma preserves_ret {A} I (a : A) : preserves I (ret a).
Proof. intros st H. exact H. Qed.

Lemma preserves_gets {A} I (f : State -> A) : preserves I (gets f).
Proof. intros st H. exact H. Qed.

Lemma preserves_throw {A} I e : preserves I (@throw A e).
Proof. intros st H. exact H. Qed.

Lemma preserves_when I b m : preserves I m -> preserves I (when b m).
Proof. destruct b; [auto|]. intros _. apply preserves_ret. Qed.

Lemma preserves_try_catch {A} I (m : M A) h :
  preserves I m -> (forall e, preserves I (h e)) -> preserves I (try_catch m h).
Proof.
  intros Hm Hh st H. unfold try_catch. specialize (Hm st H).
  destruct (m st) as [a st'|e st']; cbn in *; [|apply Hh]; assumption.
Qed.

Lemma preserves_for_of {A} I (l : list A) body :
  (forall x, In x l -> preserves I (body x)) -> preserves I (for_of l body).
Proof.
  induction l as [|x l IH]; intros Hb; cbn [for_of]; [apply preserves_ret|].
  apply preserves_bind; [apply Hb; now left|].
  intros _. apply IH. intros y Hy. apply Hb. now right.
Qed.

Lemma preserves_modify I (f : State -> State) :
  (forall st, I st -> I (f st)) -> preserves I (modify f).
Proof. intros Hf st H. apply Hf, H. Qed.

Lemma preserves_frame (f : State -> State) :
  (forall st, analytics (f st) = analytics st) ->
  preserves (analytics_inv w) (modify f).
Proof. intros Hf st H. cbn. eapply inv_frame; [apply Hf|exact H]. Qed.

Ltac frame :=
  repeat
    match goal with
    | |- preserves _ (ret _) => apply preserves_ret
    | |- preserves _ (gets _) => apply preserves_gets
    | |- preserves _ (throw _) => apply preserves_throw
    | |- preserves _ (when _ _) => apply preserves_when
    | |- preserves _ (bind _ _) => apply preserves_bind; [|intros ?]
    | |- preserves _ (try_catch _ _) => apply preserves_try_catch; [|intros ?]
    | |- preserves _ (modify _) => apply preserves_frame; intros; reflexivity
    | |- preserves _ (match ?x with _ => _ end) => destruct x
    end.

Lemma preserves_video_set_paused b :
  preserves (analytics_inv w) (video_set_paused b).
Proof. unfold video_set_paused. frame. Qed.


#[local] Arguments Plausible.trackEvent : simpl never.
#[local] Arguments Plausible.count_calls : simpl never.
#[local] Arguments count_pushes : simpl never.
#[local] Arguments with_pushed : simpl never.
#[local] Arguments number : simpl never.

Lemma count_track f name p l :
  Plausible.count_calls f (Plausible.trackEvent name (Some p) None l)
  = Plausible.count_calls f l + b2n (f (Plausible.props_call name p)).
Proof.
  rewrite trackEvent_props, count_calls_snoc. reflexivity.
Qed.

Lemma is_progress_props_call m name p :
  is_progress m (Plausible.props_call name p)
  = String.eqb name "Video Progress"
    && match Plausible.assoc "milestone" p with
       | Some (Plausible.VNumber x) => PrimFloat.eqb x (number m)
       | _ => false
       end.
Proof.
  unfold is_progress. rewrite prop_of_props_call. reflexivity.
Qed.

Lemma count_pushes_snoc f l e :
  count_pushes f (l ++ [e]) = count_pushes f l + b2n (f e).
Proof.
  unfold count_pushes. rewrite List.filter_app, List.length_app. cbn.
  destruct (f e); reflexivity.
Qed.

(** The window after one more push, whatever [w] is. *)
Lemma pushToDataLayer_window name data st pushed :
  window st = with_pushed w pushed ->
  exists extra,
    pushToDataLayer name data st
    = Done tt (set_window (with_pushed w (pushed ++ extra)) st) /\
    (extra = [] \/ extra = [("event", Plausible.VString name) :: data]).
Proof.
  intros Hw. unfold pushToDataLayer, bind, gets, modify, ret. rewrite Hw.
  unfold with_pushed in *. destruct w as [[[dl0|]]|]; cbn in *.
  - exists [("event", Plausible.VString name) :: data].
    rewrite app_assoc. auto.
  - exists []. destruct st; cbn in *. subst. auto.
  - exists []. destruct st; cbn in *. subst. auto.
Qed.

Lemma count_extra f name data extra n :
  extra = [] \/ extra = [("event", Plausible.VString name) :: data] ->
  forall pushed,
  count_pushes f pushed <= n ->
  count_pushes f (pushed ++ extra)
  <= n + b2n (f (("event", Plausible.VString name) :: data)).
Proof.
  intros [->| ->] pushed H.
  - rewrite app_nil_r. lia.
  - rewrite count_pushes_snoc. lia.
Qed.

Lemma track_first_play_inv :
  preserves (analytics_inv w) (track_first_play Math_round props).
Proof.
  intros st [H1 H2 H3 (pushed & Hw & H4 & H5 & H6)].
  unfold track_first_play, bind at 1, gets at 1. cbn beta iota.
  destruct (hasTrackedPlayRef st) eqn:E; cbn [negb when ret state_of];
    [constructor; rewrite ?E; eauto|].
  unfold getVideoEventProps, track, bind, gets, modify, ret.
  match goal with
  | |- context [pushToDataLayer ?n ?d ?s] =>
      destruct (pushToDataLayer_window n d s pushed Hw) as (extra & -> & Hx)
  end.
  cbn. constructor; cbn.
  - unfold Plausible.trackVideoPlay. rewrite count_track, H1. reflexivity.
  - intros m Hm. unfold Plausible.trackVideoPlay.
    rewrite count_track, is_progress_props_call, H2 by exact Hm. cbn. lia.
  - unfold Plausible.trackVideoPlay. rewrite count_track, H3. cbn. lia.
  - exists (pushed ++ extra). split; [reflexivity|]. split; [|split].
    + eapply Nat.le_trans; [eapply count_extra; [exact Hx|exact H4]|]. cbn. lia.
    + intros m Hm. eapply Nat.le_trans; [eapply count_extra; [exact Hx|apply H5, Hm]|]. cbn. lia.
    + eapply Nat.le_trans; [eapply count_extra; [exact Hx|exact H6]|]. cbn. lia.
Qed.

Lemma togglePlayPause_inv :
  preserves (analytics_inv w) (togglePlayPause Math_round props).
Proof.
  unfold togglePlayPause. apply preserves_bind; [apply preserves_gets|].
  intros [v|]; [|apply preserves_ret]. destruct (paused v).
  - apply preserves_bind; [apply preserves_video_set_paused|]. intros _.
    apply preserves_bind; [frame|]. intros _. apply track_first_play_inv.
  - apply preserves_bind; [apply preserves_video_set_paused|]. intros _.
    apply preserves_bind; [frame|]. intros _.
    intros st [H1 H2 H3 (pushed & Hw & H4 & H5 & H6)].
    unfold getVideoEventProps, track, bind, gets, modify, ret.
    match goal with
    | |- context [pushToDataLayer ?n ?d ?s] =>
        destruct (pushToDataLayer_window n d s pushed Hw) as (extra & -> & Hx)
    end.
    cbn. constructor; cbn.
    + unfold Plausible.trackVideoPause. rewrite count_track, H1. cbn. lia.
    + intros m Hm. unfold Plausible.trackVideoPause.
      rewrite count_track, is_progress_props_call, H2 by exact Hm. cbn. lia.
    + unfold Plausible.trackVideoPause. rewrite count_track, H3. cbn. lia.
    + exists (pushed ++ extra). split; [reflexivity|]. split; [|split].
      * eapply Nat.le_trans; [eapply count_extra; [exact Hx|exact H4]|]. cbn. lia.
      * intros m Hm. eapply Nat.le_trans; [eapply count_extra; [exact Hx|apply H5, Hm]|]. cbn. lia.
      * eapply Nat.le_trans; [eapply count_extra; [exact Hx|exact H6]|]. cbn. lia.
Qed.

Lemma b2n_union_other (m m' : Z) (s : gset Z) :
  m <> m' ->
  b2n (bool_decide (m' ∈ ({[m]} ∪ s : gset Z))) = b2n (bool_decide (m' ∈ s)).
Proof.
  intros Hne. f_equal. apply bool_decide_ext.
  rewrite elem_of_union, elem_of_singleton. intuition congruence.
Qed.

Lemma b2n_union_same (m : Z) (s : gset Z) :
  b2n (bool_decide (m ∈ ({[m]} ∪ s : gset Z))) = 1.
Proof. rewrite bool_decide_eq_true_2 by set_solver. reflexivity. Qed.

Lemma handleVideoEnded_inv :
  preserves (analytics_inv w) (handleVideoEnded Math_round props).
Proof.
  unfold handleVideoEnded. apply preserves_bind; [frame|]. intros _.
  intros st [H1 H2 H3 (pushed & Hw & H4 & H5 & H6)].
  unfold bind at 1, gets at 1. cbn beta iota.
  destruct (bool_decide (100%Z ∈ trackedMilestonesRef st)) eqn:E;
    cbn [negb when ret state_of]; [constructor; rewrite ?E; eauto|].
  unfold getVideoEventProps, track, bind, gets, modify, ret.
  match goal with
  | |- context [pushToDataLayer ?n ?d ?s] =>
      destruct (pushToDataLayer_window n d s pushed Hw) as (extra & -> & Hx)
  end.
  assert (Hms : forall m, In m milestones -> 100%Z <> m).
  { intros m [<-|[<-|[<-|[]]]]; discriminate. }
  cbn. constructor; cbn.
  - unfold Plausible.trackVideoComplete. rewrite count_track, H1. cbn. lia.
  - intros m Hm. unfold Plausible.trackVideoComplete.
    rewrite count_track, is_progress_props_call, H2 by exact Hm.
    rewrite b2n_union_other by auto. cbn. lia.
  - unfold Plausible.trackVideoComplete. rewrite count_track, H3.
    rewrite b2n_union_same. reflexivity.
  - exists (pushed ++ extra). split; [reflexivity|]. split; [|split].
    + eapply Nat.le_trans; [eapply count_extra; [exact Hx|exact H4]|]. cbn. lia.
    + intros m Hm. rewrite b2n_union_other by auto.
      eapply Nat.le_trans; [eapply count_extra; [exact Hx|apply H5, Hm]|]. cbn. lia.
    + rewrite b2n_union_same.
      eapply Nat.le_trans; [eapply count_extra; [exact Hx|exact H6]|]. cbn. lia.
Qed.

Lemma number_eqb_milestones m m' :
  In m milestones -> In m' milestones ->
  PrimFloat.eqb (number m) (number m') = bool_decide (m = m').
Proof.
  intros [<-|[<-|[<-|[]]]] [<-|[<-|[<-|[]]]]; reflexivity.
Qed.

Lemma handleTimeUpdate_inv :
  preserves (analytics_inv w) (handleTimeUpdate Math_round props).
Proof.
  unfold handleTimeUpdate. apply preserves_bind; [apply preserves_gets|].
  intros [v|]; [|apply preserves_ret].
  apply preserves_bind; [frame|]. intros _.
  apply preserves_for_of. intros m0 Hm0. unfold handleTimeUpdate_milestone.
  intros st [H1 H2 H3 (pushed & Hw & H4 & H5 & H6)].
  unfold bind at 1, gets at 1. cbn beta iota.
  destruct (geb _ _); cbn [andb when ret state_of];
    [|constructor; eauto].
  destruct (bool_decide (m0 ∈ trackedMilestonesRef st)) eqn:E;
    cbn [negb when ret state_of]; [constructor; rewrite ?E; eauto|].
  unfold getVideoEventProps, track, bind, gets, modify, ret.
  match goal with
  | |- context [pushToDataLayer ?n ?d ?s] =>
      destruct (pushToDataLayer_window n d s pushed Hw) as (extra & -> & Hx)
  end.
  assert (H100 : m0 <> 100%Z).
  { destruct Hm0 as [<-|[<-|[<-|[]]]]; discriminate. }
  cbn. constructor; cbn.
  - unfold Plausible.trackVideoProgress. rewrite count_track, H1. cbn. lia.
  - intros m Hm. unfold Plausible.trackVideoProgress.
    rewrite count_track, is_progress_props_call, H2 by exact Hm.
    cbn [Plausible.assoc String.eqb Ascii.eqb Bool.eqb andb].
    rewrite number_eqb_milestones by assumption.
    destruct (decide (m0 = m)) as [<-|Hne].
    + rewrite E, b2n_union_same, (bool_decide_eq_true_2 (m0 = m0)) by reflexivity.
      reflexivity.
    + rewrite b2n_union_other, (bool_decide_eq_false_2 (m0 = m)) by assumption.
      cbn. lia.
  - unfold Plausible.trackVideoProgress. rewrite count_track, H3.
    rewrite b2n_union_other by assumption. cbn. lia.
  - exists (pushed ++ extra). split; [reflexivity|]. split; [|split].
    + eapply Nat.le_trans; [eapply count_extra; [exact Hx|exact H4]|]. cbn. lia.
    + intros m Hm.
      eapply Nat.le_trans; [eapply count_extra; [exact Hx|apply H5, Hm]|].
      unfold is_progress_push.
      cbn [is_push Plausible.assoc String.eqb Ascii.eqb Bool.eqb andb].
      rewrite number_eqb_milestones by assumption.
      destruct (decide (m0 = m)) as [<-|Hne].
      * rewrite E, b2n_union_same. rewrite (bool_decide_eq_true_2 (m0 = m0)) by reflexivity. cbn. lia.
      * rewrite b2n_union_other, (bool_decide_eq_false_2 (m0 = m)) by assumption.
        specialize (H5 _ Hm). cbn. lia.
    + rewrite b2n_union_other by assumption.
      eapply Nat.le_trans; [eapply count_extra; [exact Hx|exact H6]|]. cbn. lia.
Qed.


Lemma step_inv e : preserves (analytics_inv w) (step Math_round props e).
Proof.
  destruct e; cbn [step].
  - unfold handlePlayClick. frame.
  - apply preserves_bind; [apply preserves_gets|]. intros [|n]; [frame|].
    apply preserves_bind; [frame|]. intros _. unfold handlePlayClick_timeout.
    apply preserves_bind; [apply preserves_video_set_paused|]. intros _.
    apply track_first_play_inv.
  - apply togglePlayPause_inv.
  - unfold toggleMute. frame.
  - unfold toggleFullscreen_call. frame.
  - unfold toggleFullscreen_resume, await, console_error. frame.
  - apply handleTimeUpdate_inv.
  - apply handleVideoEnded_inv.
  - unfold handleProgressClick. frame.
  - unfold handleMouseMove. frame.
  - unfold handleMouseLeave. frame.
  - unfold handleMouseMove_timeout. frame.
  - unfold handleFullscreenChange. frame.
  - frame.
Qed.

Lemma initial_inv : analytics_inv w (initial w).
Proof.
  constructor.
  - reflexivity.
  - intros m _. reflexivity.
  - reflexivity.
  - exists []. split.
    + unfold with_pushed.
      destruct w as [[[dl|]]|]; cbn; rewrite ?app_nil_r; reflexivity.
    + unfold count_pushes. cbn. repeat split; intros; lia.
Qed.

Lemma run_preserves (I : State -> Prop) evs :
  (forall e, preserves I (step Math_round props e)) ->
  forall st, I st -> I (run Math_round props evs st).
Proof.
  intros Hstep. induction evs as [|e evs IH]; intros st H; cbn; [exact H|].
  apply IH, Hstep, H.
Qed.

Lemma run_inv evs :
  analytics_inv w (run Math_round props evs (initial w)).
Proof. apply run_preserves; [apply step_inv|apply initial_inv]. Qed.


Ltac unfold_handlers :=
  unfold step, handlePlayClick, handlePlayClick_timeout, togglePlayPause,
    toggleMute, toggleFullscreen_call, toggleFullscreen_resume,
    handleTimeUpdate, handleVideoEnded, handleProgressClick, handleMouseMove,
    handleMouseMove_timeout, handleMouseLeave, handleFullscreenChange;
  unfold track_first_play, handleTimeUpdate_milestone, await, console_error,
    video_set_paused;
  unfold pushToDataLayer, track, getVideoEventProps.

Ltac walk leaf :=
  repeat
    match goal with
    | |- preserves _ (ret _) => apply preserves_ret
    | |- preserves _ (gets _) => apply preserves_gets
    | |- preserves _ (throw _) => apply preserves_throw
    | |- preserves _ (when _ _) => apply preserves_when
    | |- preserves _ (for_of _ _) => apply preserves_for_of; intros ? _
    | |- preserves _ (bind _ _) => apply preserves_bind; [|intros ?]
    | |- preserves _ (try_catch _ _) => apply preserves_try_catch; [|intros ?]
    | |- preserves _ (modify _) => apply preserves_modify; intros ? ?; leaf
    | |- preserves _ (match ?x with _ => _ end) => destruct x
    end.

(** The guards only close: a flag once set stays set, a milestone once
    recorded stays recorded, and the video once shown stays shown. *)
Lemma step_keeps_play_guard e :
  preserves (fun st => hasTrackedPlayRef st = true) (step Math_round props e).
Proof. destruct e; unfold_handlers; walk ltac:(cbn; auto). Qed.

Lemma step_keeps_milestone (x : Z) e :
  preserves (fun st => x ∈ trackedMilestonesRef st) (step Math_round props e).
Proof.
  destruct e; unfold_handlers;
    walk ltac:(cbn; auto; apply elem_of_union; auto).
Qed.

Lemma step_keeps_playing e :
  preserves (fun st => isPlaying st = true) (step Math_round props e).
Proof. destruct e; unfold_handlers; walk ltac:(cbn; auto). Qed.

Lemma step_keeps_poster e :
  is_click_poster e = false ->
  preserves (fun st => isPlaying st = false) (step Math_round props e).
Proof.
  destruct e; try discriminate; intros _; unfold_handlers;
    walk ltac:(cbn; auto).
Qed.

Lemma run_app evs evs' st :
  run Math_round props (evs ++ evs') st
  = run Math_round props evs' (run Math_round props evs st).
Proof. apply fold_left_app. Qed.

Lemma poster_to_video_playing evs st :
  isPlaying st = true -> poster_to_video Math_round props evs st = 0.
Proof.
  revert st. induction evs as [|e evs IH]; intros st H; cbn; [reflexivity|].
  rewrite H. cbn. apply IH. apply (step_keeps_playing e st H).
Qed.

Lemma poster_to_video_poster evs st :
  isPlaying st = false ->
  poster_to_video Math_round props evs st = b2n (existsb is_click_poster evs).
Proof.
  revert st. induction evs as [|e evs IH]; intros st H;
    cbn [poster_to_video existsb]; [reflexivity|].
  rewrite H. destruct (is_click_poster e) eqn:E.
  - destruct e; try discriminate. cbn. f_equal.
    apply poster_to_video_playing. reflexivity.
  - pose proof (step_keeps_poster e E st H) as H'. cbn beta in H'.
    rewrite H'. cbn. apply IH, H'.
Qed.

Lemma track_first_play_sets_guard st :
  hasTrackedPlayRef (state_of (track_first_play Math_round props st)) = true.
Proof.
  unfold track_first_play, getVideoEventProps, track, pushToDataLayer,
    bind, gets, modify, ret, when.
  destruct (hasTrackedPlayRef st) eqn:E; cbn; [exact E|].
  destruct (window st) as [[[dl|]]|]; reflexivity.
Qed.

Lemma video_set_paused_done b st :
  video_set_paused b st
  = Done tt (set_videoRef
               ((fun v => mkVideo (currentTime v) (duration v) b (muted v))
                  <$> videoRef st) st).
Proof. reflexivity. Qed.

Lemma play_timeout_sets_guard st n :
  playTimeouts st = S n ->
  hasTrackedPlayRef (state_of (step Math_round props PlayTimeout st)) = true.
Proof.
  intros H. cbn [step]. unfold bind at 1, gets at 1. rewrite H.
  unfold handlePlayClick_timeout, bind, modify, video_set_paused.
  apply track_first_play_sets_guard.
Qed.

Lemma resume_sets_guard st v :
  videoRef st = Some v -> paused v = true ->
  hasTrackedPlayRef (state_of (step Math_round props ClickPlayPause st)) = true.
Proof.
  intros Hv Hp. cbn [step]. unfold togglePlayPause, bind at 1, gets at 1.
  rewrite Hv, Hp. unfold bind, modify, video_set_paused.
  apply track_first_play_sets_guard.
Qed.

(** One turn of the loop of [handleTimeUpdate] records its milestone when
    the progress has reached it, and nothing else. *)
Lemma milestone_turn cp m0 st :
  exists st',
    handleTimeUpdate_milestone Math_round props cp m0 st = Done tt st' /\
    forall x, x ∈ trackedMilestonesRef st' <->
              x ∈ trackedMilestonesRef st \/
              (x = m0 /\ geb cp (number m0) = true).
Proof.
  unfold handleTimeUpdate_milestone, getVideoEventProps, track,
    pushToDataLayer, bind, gets, modify, ret, when.
  destruct (geb cp (number m0)) eqn:G; cbn [andb].
  - destruct (bool_decide (m0 ∈ trackedMilestonesRef st)) eqn:E; cbn [negb].
    + apply bool_decide_eq_true_1 in E. eexists. split; [reflexivity|].
      intros x. split; [auto|]. intros [?|[-> _]]; assumption.
    + cbn. destruct (window st) as [[[dl|]]|]; cbn; (eexists; split; [reflexivity|]);
        cbn; intros x; rewrite elem_of_union, elem_of_singleton; intuition.
  - eexists. split; [reflexivity|]. intros x. intuition discriminate.
Qed.

Lemma milestone_loop cp l st :
  exists st',
    for_of l (handleTimeUpdate_milestone Math_round props cp) st = Done tt st' /\
    forall x, x ∈ trackedMilestonesRef st' <->
              x ∈ trackedMilestonesRef st \/
              (In x l /\ geb cp (number x) = true).
Proof.
  revert st. induction l as [|m0 l IH]; intros st; cbn [for_of].
  - exists st. split; [reflexivity|]. intros x. cbn. intuition.
  - destruct (milestone_turn cp m0 st) as (st1 & E1 & H1).
    destruct (IH st1) as (st2 & E2 & H2).
    exists st2. unfold bind. rewrite E1. split; [exact E2|].
    intros x. rewrite H2, H1. cbn [In]. split.
    + intros [[?|[-> ?]]|[? ?]]; auto.
    + intros [?|[[<-|?] ?]]; auto.
Qed.

Lemma handleTimeUpdate_records st v x :
  videoRef st = Some v ->
  x ∈ trackedMilestonesRef (state_of (handleTimeUpdate Math_round props st)) <->
  x ∈ trackedMilestonesRef st \/
  (In x milestones /\
   geb (currentTime v / duration v * number 100)%float (number x) = true).
Proof.
  intros Hv. unfold handleTimeUpdate, bind at 1, gets at 1. rewrite Hv.
  unfold bind at 1, modify at 1.
  match goal with
  | |- context [for_of ?l (handleTimeUpdate_milestone _ _ ?cp) ?s] =>
      destruct (milestone_loop cp l s) as (st' & -> & H)
  end.
  cbn [state_of]. rewrite H. reflexivity.
Qed.


Lemma pushed_since_with_pushed st pushed :
  window st = with_pushed w pushed ->
  pushed_since w st = pushed \/ pushed_since w st = [].
Proof.
  unfold pushed_since, with_pushed. intros ->.
  destruct w as [[[dl|]]|]; cbn; auto.
  left. apply drop_app_length.
Qed.

Lemma count_pushed_since f st pushed n :
  window st = with_pushed w pushed ->
  count_pushes f pushed <= n -> count_pushes f (pushed_since w st) <= n.
Proof.
  intros Hw H. destruct (pushed_since_with_pushed _ _ Hw) as [-> | ->];
    [exact H|]. unfold count_pushes. cbn. lia.
Qed.

Lemma b2n_le_1 b : b2n b <= 1.
Proof. destruct b; cbn; lia. Qed.

Lemma ended_records_completion st :
  (100%Z) ∈ trackedMilestonesRef
              (state_of (handleVideoEnded Math_round props st)).
Proof.
  unfold handleVideoEnded, getVideoEventProps, track, pushToDataLayer,
    bind, gets, modify, ret, when. cbn.
  destruct (bool_decide (100%Z ∈ trackedMilestonesRef st)) eqn:E; cbn.
  - apply bool_decide_eq_true_1 in E. exact E.
  - destruct (window st) as [[[dl|]]|]; cbn;
      apply elem_of_union; left; apply elem_of_singleton; reflexivity.
Qed.

Lemma run_records_completion evs st :
  existsb is_ended evs = true \/ (100%Z) ∈ trackedMilestonesRef st ->
  (100%Z) ∈ trackedMilestonesRef (run Math_round props evs st).
Proof.
  revert st. induction evs as [|e evs IH]; intros st; cbn [existsb run fold_left].
  - intros [?|?]; [discriminate|assumption].
  - intros [H|H].
    + apply orb_prop in H as [H|H].
      * apply IH. right. destruct e; try discriminate.
        apply ended_records_completion.
      * apply IH. now left.
    + apply IH. right. apply (step_keeps_milestone _ e st H).
Qed.

Lemma run_isPlaying evs st :
  isPlaying st = false ->
  isPlaying (run Math_round props evs st) = existsb is_click_poster evs.
Proof.
  revert st. induction evs as [|e evs IH]; intros s Hs;
    cbn [run fold_left existsb]; [exact Hs|].
  destruct (is_click_poster e) eqn:E; cbn [orb].
  - destruct e; try discriminate.
    apply (run_preserves (fun s => isPlaying s = true));
      [apply step_keeps_playing|reflexivity].
  - apply IH. apply (step_keeps_poster e E s Hs).
Qed.

End VideoPlayerSession.

(** * The properties of the specification *)

Section VideoShowcaseClaims.
Import JS RegExp React VideoShowcase.

(** C1. A URL in which the first occurrence of one of the formats
    [youtube.com/watch?v=], [youtu.be/], [youtube.com/embed/] is followed by
    a non-empty id free of [&], [?], [#] and newline, the id running to the
    end of the URL or to one of these characters, yields that id; a URL no
    substring of which matches one of the two patterns yields [null], and
    only such a URL does.  The two examples of the specification evaluate as
    it says. *)
Theorem extractYouTubeId_correct :
  (forall pre fmt id rest,
      In fmt formats -> id <> "" -> all_chars not_delimiter id = true ->
      id_ends_at rest = true ->
      no_format_before (String.length pre) (pre +:+ fmt +:+ id +:+ rest) = true ->
      extractYouTubeId (pre +:+ fmt +:+ id +:+ rest) = IdStr id)
  /\ (forall url,
        (forall p, In p patterns -> ~ occurs p url) <->
        extractYouTubeId url = IdNull)
  /\ extractYouTubeId "https://youtu.be/abc123XYZ" = IdStr "abc123XYZ"
  /\ extractYouTubeId "not-a-url" = IdNull.
Proof.
  split; [exact extract_first_format|].
  split; [|split; reflexivity].
  intros url. unfold extractYouTubeId. rewrite first_capture_null.
  rewrite List.Forall_forall. reflexivity.
Qed.

Lemma extractYouTubeId_correct_witness :
  extractYouTubeId "https://www.youtube.com/watch?v=dQw4w9WgXcQ&t=42s"
  = IdStr "dQw4w9WgXcQ".
Proof.
  apply (proj1 extractYouTubeId_correct
           "https://www." "youtube.com/watch?v=" "dQw4w9WgXcQ" "&t=42s").
  - simpl. auto.
  - discriminate.
  - reflexivity.
  - reflexivity.
  - reflexivity.
Defined.

(** C4. A card shows the inline error message, and no iframe, exactly when
    [extractYouTubeId] returns [null] for the URL of the video; otherwise it
    shows one iframe, whose [src] is the embed URL of the extracted id, and
    no error message. *)
Theorem VideoCard_error_or_iframe (video : VideoItem) :
  (extractYouTubeId (url video) = IdNull <->
   error_messages (VideoCard video) = ["Invalid YouTube URL: " +:+ url video])
  /\ (extractYouTubeId (url video) = IdNull ->
      iframe_srcs (VideoCard video) = [])
  /\ (extractYouTubeId (url video) <> IdNull ->
      exists id,
        extractYouTubeId (url video) = IdStr id /\
        iframe_srcs (VideoCard video)
        = [Some (PStr ("https://www.youtube.com/embed/" +:+ id))] /\
        error_messages (VideoCard video) = []).
Proof.
  assert (Hnull : extractYouTubeId (url video) = IdNull ->
            error_messages (VideoCard video)
            = ["Invalid YouTube URL: " +:+ url video] /\
            iframe_srcs (VideoCard video) = []).
  { intros E. unfold VideoCard. rewrite E. cbn.
    rewrite string_app_empty_r. split; reflexivity. }
  assert (Hid : forall c w, extractYouTubeId (url video) = IdStr (String c w) ->
            iframe_srcs (VideoCard video)
            = [Some (PStr ("https://www.youtube.com/embed/" +:+ String c w))] /\
            error_messages (VideoCard video) = []).
  { intros c w E. unfold VideoCard. rewrite E. cbn [falsy to_template].
    destruct (title video) as [|t0 t]; destruct (description video) as [[|d0 d]|];
      split; reflexivity. }
  destruct (extractYouTubeId_cases (url video)) as [E|(c & w & E)].
  - split; [|split].
    + split; [apply Hnull|]. intros _. exact E.
    + apply Hnull.
    + intros Hne. contradiction.
  - split; [|split].
    + split; [intros E'; congruence|].
      intros Herr. rewrite (proj2 (Hid c w E)) in Herr. discriminate.
    + intros E'. congruence.
    + intros _. exists (String c w). split; [exact E|]. apply Hid, E.
Qed.

Lemma VideoCard_error_or_iframe_witness :
  error_messages (VideoCard (mkVideoItem "v1" "Intro" None "not-a-url"))
  = ["Invalid YouTube URL: not-a-url"].
Proof.
  apply (proj1 (proj1 (VideoCard_error_or_iframe
                         (mkVideoItem "v1" "Intro" None "not-a-url")))).
  reflexivity.
Defined.

End VideoShowcaseClaims.

Section PlausibleClaims.
Import Plausible.

(** C9. [trackEvent(eventName, props, revenue)] calls the SDK once, with
    [eventName] and with options that are [undefined] when neither [props]
    nor [revenue] is given and otherwise an object whose [props] and
    [revenue] keys are exactly the arguments given: a key is present only
    for a given argument, and no other key is present. *)
Theorem trackEvent_options name props revenue (l : log) :
  exists opts,
    trackEvent name props revenue l = l ++ [mkCall name opts] /\
    (opts = None <-> props = None /\ revenue = None) /\
    (forall d, opts = Some d ->
       d !! "props" = FProps <$> props /\
       d !! "revenue" = FRevenue <$> revenue /\
       dom d = match props with Some _ => {["props"]} | None => ∅ end
               ∪ match revenue with Some _ => {["revenue"]} | None => ∅ end).
Proof.
  unfold trackEvent, plausible.
  destruct props as [p|], revenue as [r|]; cbn [fmap option_fmap option_map].
  - rewrite map_size_insert_None
      by (rewrite insert_empty; apply lookup_singleton_ne; discriminate).
    eexists. split; [reflexivity|].
    split; [split; [discriminate|intros [? _]; discriminate]|].
    intros d [= <-]. split; [|split].
    + rewrite lookup_insert_ne by discriminate. apply lookup_insert_eq.
    + apply lookup_insert_eq.
    + rewrite !dom_insert_L, dom_empty_L. set_solver.
  - rewrite insert_empty, map_size_singleton.
    eexists. split; [reflexivity|].
    split; [split; [discriminate|intros [? _]; discriminate]|].
    intros d [= <-]. split; [|split].
    + apply lookup_singleton_eq.
    + apply lookup_singleton_ne. discriminate.
    + rewrite dom_singleton_L. set_solver.
  - rewrite insert_empty, map_size_singleton.
    eexists. split; [reflexivity|].
    split; [split; [discriminate|intros [_ ?]; discriminate]|].
    intros d [= <-]. split; [|split].
    + apply lookup_singleton_ne. discriminate.
    + apply lookup_singleton_eq.
    + rewrite dom_singleton_L. set_solver.
  - rewrite map_size_empty.
    eexists. split; [reflexivity|]. split; [split; auto|].
    intros d [=].
Qed.

Lemma trackEvent_options_witness :
  exists opts,
    trackEvent "Signup" (Some [("method", VString "github")]) None []
    = [mkCall "Signup" opts] /\
    opts <> None.
Proof.
  destruct (trackEvent_options "Signup" (Some [("method", VString "github")])
              None []) as (opts & E & Hnone & _).
  exists opts. split; [exact E|].
  intros H. apply Hnone in H as [H _]. discriminate.
Defined.

End PlausibleClaims.

Section VideoPlayerClaims.
Import VideoPlayer.
Variable Math_round : float -> float.
Variable props : VideoPlayerProps.
Variable w : option Window.

(** C2. In every session, each of the milestones 25, 50 and 75 is reported
    at most once to Plausible and at most once to the dataLayer, however
    often [timeupdate] fires and wherever the playback position moves: the
    milestone has been reported exactly when it is in the set of tracked
    milestones; a [timeupdate] puts it there when the progress has reached
    it (and only then, unless it was there already); and once it is there
    no further event adds a report. *)
Theorem progress_milestone_fires_once evs m :
  In m milestones ->
  let st := run Math_round props evs (initial w) in
  Plausible.count_calls (is_progress m) (plausible st)
  = b2n (bool_decide (m ∈ trackedMilestonesRef st))
  /\ Plausible.count_calls (is_progress m) (plausible st) <= 1
  /\ count_pushes (is_progress_push m) (pushed_since w st) <= 1
  /\ (forall v, videoRef st = Some v ->
        (m ∈ trackedMilestonesRef
               (state_of (step Math_round props TimeUpdate st)) <->
         m ∈ trackedMilestonesRef st \/
         geb (currentTime v / duration v * number 100)%float (number m) = true))
  /\ (forall evs', m ∈ trackedMilestonesRef st ->
        Plausible.count_calls (is_progress m)
          (plausible (run Math_round props (evs ++ evs') (initial w)))
        = Plausible.count_calls (is_progress m) (plausible st)).
Proof.
  intros Hm st.
  destruct (run_inv Math_round props w evs) as [_ H2 _ (pushed & Hw & _ & H5 & _)].
  fold st in H2, Hw, H5. split; [apply H2, Hm|].
  split; [rewrite (H2 m Hm); apply b2n_le_1|].
  split.
  { eapply count_pushed_since; [exact Hw|].
    eapply Nat.le_trans; [apply H5, Hm|apply b2n_le_1]. }
  split.
  { intros v Hv. cbn [step]. rewrite (handleTimeUpdate_records Math_round props st v m Hv).
    intuition. }
  intros evs' Hin.
  destruct (run_inv Math_round props w (evs ++ evs')) as [_ H2' _ _].
  rewrite (H2' m Hm), (H2 m Hm), run_app. fold st.
  rewrite !bool_decide_eq_true_2; [reflexivity|exact Hin|].
  apply (run_preserves Math_round props (fun s => m ∈ trackedMilestonesRef s));
    [apply step_keeps_milestone|exact Hin].
Qed.

(** C3. In every session the play event is reported at most once, to
    Plausible and to the dataLayer: it has been reported exactly when the
    [hasTrackedPlay] guard is set; the timer of a poster click and the resume
    branch of the play/pause toggle both set the guard; and once it is set no
    further event adds a report.  The poster gives way to the video once, at
    the first click on it, and never again. *)
Theorem play_event_fires_once evs :
  let st := run Math_round props evs (initial w) in
  Plausible.count_calls is_play (plausible st) = b2n (hasTrackedPlayRef st)
  /\ Plausible.count_calls is_play (plausible st) <= 1
  /\ count_pushes (is_push "video_start") (pushed_since w st) <= 1
  /\ (forall n, playTimeouts st = S n ->
        hasTrackedPlayRef (state_of (step Math_round props PlayTimeout st))
        = true)
  /\ (forall v, videoRef st = Some v -> paused v = true ->
        hasTrackedPlayRef (state_of (step Math_round props ClickPlayPause st))
        = true)
  /\ (forall evs', hasTrackedPlayRef st = true ->
        Plausible.count_calls is_play
          (plausible (run Math_round props (evs ++ evs') (initial w)))
        = Plausible.count_calls is_play (plausible st))
  /\ poster_to_video Math_round props evs (initial w)
     = b2n (existsb is_click_poster evs)
  /\ isPlaying st = existsb is_click_poster evs.
Proof.
  intros st.
  destruct (run_inv Math_round props w evs) as [H1 _ _ (pushed & Hw & H4 & _ & _)].
  fold st in H1, Hw, H4. split; [exact H1|].
  split; [rewrite H1; apply b2n_le_1|].
  split.
  { eapply count_pushed_since; [exact Hw|].
    eapply Nat.le_trans; [exact H4|apply b2n_le_1]. }
  split; [intros n Hn; eapply play_timeout_sets_guard, Hn|].
  split; [intros v Hv Hp; eapply resume_sets_guard; eassumption|].
  split.
  { intros evs' Hg. destruct (run_inv Math_round props w (evs ++ evs')) as [H1' _ _ _].
    rewrite H1', H1, run_app. fold st. rewrite Hg.
    rewrite (run_preserves Math_round props
               (fun s => hasTrackedPlayRef s = true) evs'
               (step_keeps_play_guard Math_round props) st Hg).
    reflexivity. }
  split; [apply poster_to_video_poster; reflexivity|].
  apply run_isPlaying. reflexivity.
Qed.

(** C7. In every session the completion event is reported at most once, to
    Plausible and to the dataLayer: it has been reported exactly when 100 is
    in the set of tracked milestones, and it has been reported once as soon
    as the session holds an [ended] event, however many follow.  The same
    set is the one that keeps each progress milestone to one report. *)
Theorem completion_event_fires_once evs :
  let st := run Math_round props evs (initial w) in
  Plausible.count_calls is_complete (plausible st)
  = b2n (bool_decide (100%Z ∈ trackedMilestonesRef st))
  /\ Plausible.count_calls is_complete (plausible st) <= 1
  /\ count_pushes (is_push "video_complete") (pushed_since w st) <= 1
  /\ (existsb is_ended evs = true ->
      Plausible.count_calls is_complete (plausible st) = 1)
  /\ (forall m, In m milestones ->
        Plausible.count_calls (is_progress m) (plausible st)
        = b2n (bool_decide (m ∈ trackedMilestonesRef st))).
Proof.
  intros st.
  destruct (run_inv Math_round props w evs) as [_ H2 H3 (pushed & Hw & _ & _ & H6)].
  fold st in H2, H3, Hw, H6. split; [exact H3|].
  split; [rewrite H3; apply b2n_le_1|].
  split.
  { eapply count_pushed_since; [exact Hw|].
    eapply Nat.le_trans; [exact H6|apply b2n_le_1]. }
  split; [|exact H2].
  intros Hev. rewrite H3, bool_decide_eq_true_2; [reflexivity|].
  apply run_records_completion. now left.
Qed.

End VideoPlayerClaims.

Section FullscreenClaims.
Import VideoPlayer.

(** C5. When the promise of [requestFullscreen] or [exitFullscreen]
    rejects, [toggleFullscreen] catches the error and logs it on the
    console; it completes without an exception and leaves [isFullscreen] as
    it was, so a player that was not fullscreen is not fullscreen after a
    failed attempt to enter it.  This holds of the handler run in one piece,
    of its part after the [await], and of the event of a session that
    settles the oldest pending request. *)
Theorem fullscreen_rejection_is_caught
    (Math_round : float -> float) (props : VideoPlayerProps)
    (q : fs_request) (err : string) (st : State) :
  (exists st',
     toggleFullscreen (Rejected err) st = Done tt st' /\
     isFullscreen st' = isFullscreen st /\
     (containerRef st = true ->
      console st' = console st ++ [("Fullscreen error:", err)]) /\
     (isFullscreen st = false -> isFullscreen st' = false))
  /\ (exists st',
        toggleFullscreen_resume q (Rejected err) st = Done tt st' /\
        isFullscreen st' = isFullscreen st /\
        console st' = console st ++ [("Fullscreen error:", err)])
  /\ (exists st',
        step Math_round props (FullscreenSettled (Rejected err)) st
        = Done tt st' /\
        isFullscreen st' = isFullscreen st /\
        fullscreenElement st' = fullscreenElement st /\
        (fullscreenRequests st <> [] ->
         console st' = console st ++ [("Fullscreen error:", err)])).
Proof.
  split; [|split].
  - unfold toggleFullscreen, bind at 1, gets at 1.
    destruct (containerRef st) eqn:C; cbn [negb].
    + unfold bind at 1, gets at 1.
      destruct (fullscreenElement st); eexists; (split; [reflexivity|]);
        cbn; auto.
    + exists st. cbn. split; [reflexivity|]. split; [reflexivity|].
      split; [discriminate|auto].
  - destruct q; eexists; (split; [reflexivity|]); cbn; auto.
  - cbn [step]. unfold bind at 1, gets at 1.
    destruct (fullscreenRequests st) as [|q0 qs] eqn:E.
    + exists st. cbn. split; [reflexivity|]. split; [reflexivity|].
      split; [reflexivity|]. intros H. contradiction.
    + destruct q0; eexists; (split; [reflexivity|]); cbn; auto.
Qed.

End FullscreenClaims.

Section VideoPlayerWitnesses.
Import VideoPlayer.

Lemma progress_milestone_fires_once_witness :
  Plausible.count_calls (is_progress 50)
    (plausible
       (run (fun x => x) (mkProps "intro.mp4" (Some "Intro") None None None)
          [ClickPoster;
           Browser (Some (mkVideo (number 0) (number 60) true false)) true false;
           PlayTimeout;
           Browser (Some (mkVideo (number 45) (number 60) false false)) true false;
           TimeUpdate;
           Browser (Some (mkVideo (number 20) (number 60) false false)) true false;
           TimeUpdate;
           Browser (Some (mkVideo (number 40) (number 60) false false)) true false;
           TimeUpdate]
          (initial (Some (mkWindow (Some []))))))
  <= 1.
Proof.
  apply (progress_milestone_fires_once (fun x => x)
           (mkProps "intro.mp4" (Some "Intro") None None None)
           (Some (mkWindow (Some []))) _ 50%Z).
  simpl. auto.
Defined.

Lemma play_event_fires_once_witness :
  Plausible.count_calls is_play
    (plausible
       (run (fun x => x) (mkProps "intro.mp4" (Some "Intro") None None None)
          ([ClickPoster;
            Browser (Some (mkVideo (number 0) (number 60) true false)) true false;
            PlayTimeout]
           ++ [ClickPlayPause; ClickPlayPause; ClickPoster; PlayTimeout])
          (initial (Some (mkWindow (Some []))))))
  = Plausible.count_calls is_play
      (plausible
         (run (fun x => x) (mkProps "intro.mp4" (Some "Intro") None None None)
            [ClickPoster;
             Browser (Some (mkVideo (number 0) (number 60) true false)) true false;
             PlayTimeout]
            (initial (Some (mkWindow (Some [])))))).
Proof.
  refine (proj1 (proj2 (proj2 (proj2 (proj2 (proj2
            (play_event_fires_once (fun x => x)
               (mkProps "intro.mp4" (Some "Intro") None None None)
               (Some (mkWindow (Some [])))
               [ClickPoster;
                Browser (Some (mkVideo (number 0) (number 60) true false))
                  true false;
                PlayTimeout]))))))
            [ClickPlayPause; ClickPlayPause; ClickPoster; PlayTimeout] _).
  reflexivity.
Defined.

Lemma completion_event_fires_once_witness :
  Plausible.count_calls is_complete
    (plausible
       (run (fun x => x) (mkProps "intro.mp4" (Some "Intro") None None None)
          [Ended; Ended] (initial None)))
  = 1.
Proof.
  refine (proj1 (proj2 (proj2 (proj2
            (completion_event_fires_once (fun x => x)
               (mkProps "intro.mp4" (Some "Intro") None None None) None
               [Ended; Ended])))) _).
  reflexivity.
Defined.

Lemma fullscreen_rejection_is_caught_witness :
  exists st',
    toggleFullscreen (Rejected "denied") (initial None) = Done tt st' /\
    isFullscreen st' = false /\
    console st' = [("Fullscreen error:", "denied")].
Proof.
  destruct (proj1 (fullscreen_rejection_is_caught (fun x => x)
                     (mkProps "intro.mp4" None None None None)
                     RequestFullscreen "denied" (initial None)))
    as (st' & E & _ & Hc & Hf).
  exists st'. split; [exact E|]. split; [exact (Hf eq_refl)|exact (Hc eq_refl)].
Defined.

End VideoPlayerWitnesses.

Section PosterClaims.
Import React VideoPlayer.

(** C10. Before the first click the player shows one preview: the GIF when
    [gifPath] is given, whether or not a thumbnail is given too; the
    thumbnail when only [thumbnailPath] is given; the plain placeholder when
    neither is.  A path is given when it is a non-empty string. *)
Theorem poster_preview_precedence (props : VideoPlayerProps) (st : State) :
  isPlaying st = false ->
  let view := render props st in
  if JS.truthy_opt (gifPath props) then
    image_sources view = [Some (PStr (default "" (gifPath props)))]
    /\ placeholders view = []
  else if JS.truthy_opt (thumbnailPath props) then
    image_sources view = [Some (PStr (default "" (thumbnailPath props)))]
    /\ placeholders view = []
  else
    image_sources view = [] /\ length (placeholders view) = 1.
Proof.
  intros Hp view. subst view. unfold render, poster. rewrite Hp. cbn [negb].
  destruct (JS.truthy_opt (gifPath props)) eqn:G;
    [|destruct (JS.truthy_opt (thumbnailPath props)) eqn:T];
    split; reflexivity.
Qed.

Lemma poster_preview_precedence_witness :
  image_sources
    (render (mkProps "intro.mp4" (Some "Intro") (Some "intro.png")
               (Some "intro.gif") None)
       (initial None))
  = [Some (PStr "intro.gif")].
Proof.
  exact (proj1 (poster_preview_precedence
                  (mkProps "intro.mp4" (Some "Intro") (Some "intro.png")
                     (Some "intro.gif") None)
                  (initial None) eq_refl)).
Defined.

End PosterClaims.

Section PageActionsClaims.
Import React PageActions.

(** C8. Where there is a window and the Markdown URL resolves against its
    origin, each assistant entry of the menu (ChatGPT, Claude, T3 Chat,
    Scira AI) links to a URL whose query string has a parameter [q] that
    reads back as the prompt naming the resolved URL, and the GitHub entry
    links to [githubUrl] itself. *)
Theorem assistant_links_carry_prompt
    (URL : string -> string -> option string)
    (origin markdownUrl githubUrl full : string) :
  URL markdownUrl origin = Some full ->
  exists its,
    items URL (Some origin) markdownUrl githubUrl = Return its /\
    map title its
    = ["Open in GitHub"; "Open in ChatGPT"; "Open in Claude";
       "Open in T3 Chat"; "Open in Scira AI"] /\
    (forall it, In it its -> title it <> "Open in GitHub" ->
       URLSearchParams.get "q" (URLSearchParams.parse (url_query (href it)))
       = Some ("Read " +:+ full +:+ ", I want to ask questions about it.")) /\
    (forall it, In it its -> title it = "Open in GitHub" ->
       href it = githubUrl).
Proof.
  intros Hurl. unfold items. rewrite Hurl. eexists. split; [reflexivity|].
  split; [reflexivity|]. split.
  - intros it [<-|[<-|[<-|[<-|[<-|[]]]]]] Hne; cbn [title href] in *;
      try contradiction;
      match goal with
      | |- context [url_query (?base +:+ URLSearchParams.toString ?l)] =>
          change (url_query (base +:+ URLSearchParams.toString l))
            with (until_hash (URLSearchParams.toString l))
      end;
      rewrite until_hash_no_hash by apply toString_no_hash;
      rewrite parse_toString; reflexivity.
  - intros it [<-|[<-|[<-|[<-|[<-|[]]]]]] Ht; cbn [title href] in *;
      try reflexivity; discriminate.
Qed.

Lemma assistant_links_carry_prompt_witness :
  exists its,
    items (fun url base => Some (base +:+ url)) (Some "https://www.motia.dev")
      "/docs/concepts/steps.mdx" "https://github.com/MotiaDev/motia-docs"
    = Return its /\
    nth_error (map href its) 2
    = Some "https://claude.ai/new?q=Read+https%3A%2F%2Fwww.motia.dev%2Fdocs%2Fconcepts%2Fsteps.mdx%2C+I+want+to+ask+questions+about+it.".
Proof.
  destruct (assistant_links_carry_prompt
              (fun url base => Some (base +:+ url)) "https://www.motia.dev"
              "/docs/concepts/steps.mdx" "https://github.com/MotiaDev/motia-docs"
              _ eq_refl) as (its & E & _).
  exists its. split; [exact E|]. cbv in E. injection E as <-. reflexivity.
Defined.

End PageActionsClaims.

Section DocsPageClaims.
Import React DocsPage.

(** C6. For a slug the source has no page for, [Page] and
    [generateMetadata] call [notFound()]; for a slug it has a page for, they
    return: the metadata are the title and the description of the page, and
    the view holds its title, its description and its body. *)
Theorem missing_page_is_not_found
    (getPage : option (list string) -> option PageData)
    (defaultMdxComponents Twoslash : MDXComponents)
    (slug : option (list string)) :
  match getPage slug with
  | None =>
      Page getPage defaultMdxComponents Twoslash slug = NotFound /\
      generateMetadata getPage slug = NotFound
  | Some page =>
      generateMetadata getPage slug
      = Return (mkMetadata (title page) (description page)) /\
      exists props,
        Page getPage defaultMdxComponents Twoslash slug
        = Return
            (El "DocsPage" props
               [El "DocsTitle" [] [Text (title page)];
                El "DocsDescription" [("className", PStr "mb-2")]
                  match description page with
                  | Some d => [Text d]
                  | None => []
                  end;
                El "DocsBody" []
                  [body page
                     (getMDXComponents defaultMdxComponents Twoslash
                        (Some page_components))]])
  end.
Proof.
  unfold Page, generateMetadata. destruct (getPage slug) as [page|].
  - split; [reflexivity|]. eexists. reflexivity.
  - split; reflexivity.
Qed.

End DocsPageClaims.

(** * Further properties of the code *)

(** ** components/VideoShowcase *)

Section VideoShowcaseMore.
Import JS RegExp React VideoShowcase VideoShowcaseSpec.

(** With a continuation that accepts everything, the greedy repetition
    stops where the class stops. *)
Lemma repeat_class_maximal p s (f : string -> MatchState) y :
  repeat_class p s (fun s' => Some (f s')) = Some y ->
  exists w rest,
    s = w +:+ rest /\ all_chars p w = true /\ y = f rest /\
    match rest with String c _ => p c = false | EmptyString => True end.
Proof.
  revert y. induction s as [|c s IH]; intros y; simpl.
  - intros [= <-]. exists "", "". auto.
  - destruct (p c) eqn:Hc.
    + destruct (repeat_class p s (fun s' => Some (f s'))) as [y'|] eqn:E.
      * intros [= <-]. destruct (IH _ eq_refl) as (w & rest & -> & Hw & -> & Hr).
        exists (String c w), rest. simpl. rewrite Hc, Hw. auto.
      * intros [= <-]. exfalso. clear IH Hc.
        induction s as [|d s IHs]; simpl in E; [discriminate|].
        destruct (p d); [|discriminate].
        destruct (repeat_class p s (fun s' => Some (f s'))); discriminate.
    + intros [= <-]. exists "", (String c s). simpl. auto.
Qed.

(** What the group [([^&\n?#]+)] captures: the longest run at hand. *)
Lemma group_plus_run x y :
  matcher (Group (Plus not_delimiter)) x Some = Some y ->
  exists c w,
    capture1 y = Some (String c w) /\
    all_chars not_delimiter (String c w) = true /\
    remaining x = String c w +:+ remaining y /\
    id_ends_at (remaining y) = true.
Proof.
  cbn [matcher]. destruct (remaining x) as [|c s] eqn:E; [discriminate|].
  destruct (not_delimiter c) eqn:Hc; [|discriminate]. intros H.
  apply (repeat_class_maximal not_delimiter s
           (fun s'' => mkState s''
              (Some (take (String.length (String c s) - String.length s'')
                       (String c s))))) in H
    as (w & rest & -> & Hw & -> & Hr).
  exists c, w. cbn [capture1 remaining].
  change (String c (w +:+ rest)) with (String c w +:+ rest).
  rewrite capture_of_run. simpl. rewrite Hc, Hw.
  repeat split. unfold id_ends_at. destruct rest; [reflexivity|].
  rewrite Hr. reflexivity.
Qed.

(** The input a later part of a concatenation starts from is a suffix of
    the input the concatenation started from. *)
Lemma matcher_cat_suffix r1 r2 x k y :
  matcher (Cat r1 r2) x k = Some y ->
  exists w x', remaining x = w +:+ remaining x' /\ matcher r2 x' k = Some y.
Proof.
  cbn [matcher]. intros H.
  destruct (matcher_sound _ _ _ _ H) as (w & s' & c' & Hs & _ & Hk).
  exists w, (mkState s' c'). auto.
Qed.

Lemma pattern_run r x y :
  In r patterns -> matcher r x Some = Some y ->
  exists pre c w,
    capture1 y = Some (String c w) /\
    all_chars not_delimiter (String c w) = true /\
    remaining x = pre +:+ String c w +:+ remaining y /\
    id_ends_at (remaining y) = true.
Proof.
  intros [<-|[<-|[]]] H.
  - apply matcher_cat_suffix in H as (w1 & x1 & E1 & H).
    apply group_plus_run in H as (c & w & ? & ? & E & ?).
    exists w1, c, w. rewrite E1, E. auto.
  - apply matcher_cat_suffix in H as (w1 & x1 & E1 & H).
    apply matcher_cat_suffix in H as (w2 & x2 & E2 & H).
    apply matcher_cat_suffix in H as (w3 & x3 & E3 & H).
    apply group_plus_run in H as (c & w & ? & ? & E & ?).
    exists (w1 +:+ w2 +:+ w3), c, w.
    rewrite E1, E2, E3, E, !string_app_assoc. auto.
Qed.

Lemma exec_run r s m :
  In r patterns -> exec r s = Some m ->
  exists pre c w rest,
    match1 m = Some (String c w) /\
    all_chars not_delimiter (String c w) = true /\
    s = pre +:+ String c w +:+ rest /\
    id_ends_at rest = true.
Proof.
  intros Hr. revert m. induction s as [|a s IH]; intros m; cbn [exec].
  - destruct (matcher r (mkState "" None) Some) as [y|] eqn:E; [|discriminate].
    intros [= <-]. apply (pattern_run _ _ _ Hr) in E as (pre & c & w & ? & ? & E & ?).
    exists pre, c, w, (remaining y). auto.
  - destruct (matcher r (mkState (String a s) None) Some) as [y|] eqn:E.
    + intros [= <-]. apply (pattern_run _ _ _ Hr) in E as (pre & c & w & ? & ? & E & ?).
      exists pre, c, w, (remaining y). auto.
    + intros H. destruct (IH _ H) as (pre & c & w & rest & ? & ? & -> & ?).
      exists (String a pre), c, w, rest. auto.
Qed.

Lemma first_capture_run ps url :
  incl ps patterns ->
  match first_capture ps url with
  | IdNull => True
  | IdUndefined => False
  | IdStr id =>
      id <> "" /\ all_chars not_delimiter id = true /\
      exists pre rest, url = pre +:+ id +:+ rest /\ id_ends_at rest = true
  end.
Proof.
  induction ps as [|p ps IH]; intros Hin; cbn [first_capture]; [exact I|].
  unfold string_match. destruct (exec p url) as [m|] eqn:E.
  - apply exec_run in E as (pre & c & w & rest & -> & ? & ? & ?);
      [|apply Hin; now left].
    split; [discriminate|]. split; [assumption|]. eauto.
  - apply IH. intros q Hq. apply Hin. now right.
Qed.

(** X1. Whatever [extractYouTubeId] returns other than [null] is text of the
    URL: a non-empty run free of [&], [?], [#] and newline, running to the
    end of the URL or to one of these characters.  It never returns
    [undefined]. *)
Theorem extractYouTubeId_returns_run_of_url url :
  match extractYouTubeId url with
  | IdNull => True
  | IdUndefined => False
  | IdStr id =>
      id <> "" /\ all_chars not_delimiter id = true /\
      exists pre rest, url = pre +:+ id +:+ rest /\ id_ends_at rest = true
  end.
Proof. apply first_capture_run, incl_refl. Qed.












Lemma filter_flat_map {A B} (f : B -> bool) (g : A -> list B) l :
  List.filter f (flat_map g l) = flat_map (fun x => List.filter f (g x)) l.
Proof.
  induction l as [|x l IH]; [reflexivity|].
  cbn [flat_map]. rewrite List.filter_app, IH. reflexivity.
Qed.

Lemma by_tag_El t tag props children :
  by_tag t (El tag props children)
  = (if String.eqb t tag then [El tag props children] else [])
    ++ flat_map (by_tag t) children.
Proof.
  unfold by_tag. cbn [descendants List.filter has_tag].
  rewrite filter_flat_map. destruct (String.eqb t tag); reflexivity.
Qed.

(** What one card shows, by the result of [extractYouTubeId]. *)
Lemma VideoCard_shows video :
  (falsy (extractYouTubeId (url video)) = true /\
   iframe_srcs (VideoCard video) = [] /\
   error_messages (VideoCard video)
   = ["Invalid YouTube URL: " +:+ url video])
  \/ (exists id,
        extractYouTubeId (url video) = IdStr id /\
        falsy (extractYouTubeId (url video)) = false /\
        iframe_srcs (VideoCard video)
        = [Some (PStr ("https://www.youtube.com/embed/" +:+ id))] /\
        error_messages (VideoCard video) = []).
Proof.
  destruct (extractYouTubeId_cases (url video)) as [E|(c & w & E)].
  - left. unfold VideoCard. rewrite E. cbn. rewrite string_app_empty_r. auto.
  - right. exists (String c w). unfold VideoCard. rewrite E.
    cbn [falsy to_template].
    destruct (title video) as [|t0 t]; destruct (description video) as [[|d0 d]|];
      repeat split; reflexivity.
Qed.

(** X3. The [src] of the iframe of a card is the embed URL followed by a
    non-empty id free of [&], [?], [#] and newline: the URL of a video cannot
    add a query string or a fragment to the address embedded. *)
Theorem VideoCard_embeds_plain_id video :
  Forall (fun src =>
            exists id,
              src = Some (PStr ("https://www.youtube.com/embed/" +:+ id)) /\
              id <> "" /\ all_chars not_delimiter id = true)
         (iframe_srcs (VideoCard video)).
Proof.
  destruct (VideoCard_shows video) as [(_ & -> & _)|(id & E & _ & -> & _)];
    [constructor|].
  constructor; [|constructor]. exists id. split; [reflexivity|].
  pose proof (first_capture_run patterns (url video) (incl_refl _)) as H.
  fold (extractYouTubeId (url video)) in H. rewrite E in H.
  destruct H as (? & ? & _). auto.
Qed.

Lemma by_tag_grid t videos title description :
  String.eqb t "section" = false -> String.eqb t "div" = false ->
  String.eqb t "h2" = false ->
  by_tag t (VideoShowcase videos title description)
  = (if String.eqb t "p" && truthy_opt description
     then
       [El "p"
          [("className", PStr "text-xl text-gray-700 dark:text-gray-300 max-w-4xl leading-relaxed")]
          [Text (default "" description)]]
     else [])
    ++ flat_map (by_tag t) (map VideoCard videos).
Proof.
  intros Hs Hd Hh. unfold VideoShowcase.
  rewrite !by_tag_El. cbn [flat_map]. rewrite !by_tag_El.
  rewrite Hs, Hd. cbn [app flat_map]. rewrite !by_tag_El, Hh. cbn [app flat_map].
  rewrite !app_nil_r.
  destruct (truthy_opt description); cbn [flat_map app];
    rewrite ?by_tag_El; cbn [flat_map app]; rewrite ?andb_false_r, ?andb_true_r;
    [|reflexivity].
  destruct (String.eqb t "p"); reflexivity.
Qed.

Lemma map_filter_cards {A B C D} (g : C -> D) (f : C -> bool)
    (k : B -> list C) (c : A -> B) l :
  map g (List.filter f (flat_map k (map c l)))
  = flat_map (fun v => map g (List.filter f (k (c v)))) l.
Proof.
  induction l as [|v l IH]; [reflexivity|].
  cbn [map flat_map]. rewrite List.filter_app, List.map_app, IH. reflexivity.
Qed.

Lemma map_cards {A B C D} (g : C -> D) (k : B -> list C) (c : A -> B) l :
  map g (flat_map k (map c l)) = flat_map (fun v => map g (k (c v))) l.
Proof.
  induction l as [|v l IH]; [reflexivity|].
  cbn [map flat_map]. rewrite List.map_app, IH. reflexivity.
Qed.

(** X4. The showcase shows one card per video, in order: the iframes are
    those of the videos whose URL gives an id, the error messages those of
    the others, and together they are as many as the videos. *)
Theorem VideoShowcase_one_card_per_video videos title description :
  let grid := VideoShowcase videos title description in
  iframe_srcs grid = flat_map (fun v => iframe_srcs (VideoCard v)) videos
  /\ error_messages grid
     = map (fun v => "Invalid YouTube URL: " +:+ url v)
         (List.filter (fun v => falsy (extractYouTubeId (url v))) videos)
  /\ length (iframe_srcs grid) + length (error_messages grid)
     = length videos.
Proof.
  intros grid.
  assert (H1 : iframe_srcs grid
               = flat_map (fun v => iframe_srcs (VideoCard v)) videos).
  { unfold grid, iframe_srcs. rewrite by_tag_grid by reflexivity.
    cbn [String.eqb Ascii.eqb Bool.eqb andb app]. apply map_cards. }
  assert (H2 : error_messages grid
               = flat_map (fun v => error_messages (VideoCard v)) videos).
  { unfold grid, error_messages. rewrite by_tag_grid by reflexivity.
    rewrite String.eqb_refl, List.filter_app, List.map_app.
    match goal with
    | |- context [List.filter ?f (if ?b then [?e] else [])] =>
        replace (List.filter f (if b then [e] else [])) with (@nil element)
          by (destruct b; reflexivity)
    end.
    cbn [map app]. apply map_filter_cards. }
  rewrite H1, H2. clear H1 H2 grid.
  induction videos as [|v l (IH1 & IH2 & IH3)]; [repeat split|].
  cbn [flat_map List.filter map]. split; [reflexivity|].
  destruct (VideoCard_shows v) as [(F & Ei & Ee)|(id & _ & F & Ei & Ee)];
    rewrite F, Ei, Ee; cbn [app map length] in *.
  - split; [rewrite IH2; reflexivity|]. rewrite <- IH3. lia.
  - split; [rewrite IH2; reflexivity|]. rewrite <- IH3. lia.
Qed.

End VideoShowcaseMore.

(** ** hooks/usePlausibleTracking *)

Section PlausibleMore.
Import Plausible.

(** X5. [trackSignup] sends the method as the only property when it is a
    non-empty string; without a method, and with the empty string alike, it
    sends no options at all. *)
Theorem trackSignup_method_or_nothing (method : option string) (l : log) :
  exists opts,
    trackSignup method l = l ++ [mkCall "Signup" opts] /\
    (opts = None <-> JS.truthy_opt method = false) /\
    (forall m, method = Some m -> m <> "" ->
       opts = Some {["props" := FProps [("method", VString m)]]}).
Proof.
  unfold trackSignup. destruct method as [[|c m]|]; cbn [JS.truthy_opt].
  - eexists. split; [reflexivity|]. split; [split; reflexivity|].
    intros m [= <-] H. contradiction.
  - rewrite trackEvent_props. eexists. split; [reflexivity|].
    split; [split; discriminate|]. intros m' [= <-] _. reflexivity.
  - eexists. split; [reflexivity|]. split; [split; reflexivity|].
    intros m [=].
Qed.

(** X6. [trackPurchase] always sends the revenue, its currency being USD
    when none is given, and sends the product title as a property only when
    it is a non-empty string. *)
Theorem trackPurchase_always_sends_revenue
    (amount : float) (currency productTitle : option string) (l : log) :
  exists d,
    trackPurchase amount currency productTitle l
    = l ++ [mkCall "Purchase" (Some d)] /\
    d !! "revenue"
    = Some (FRevenue (mkRevenue amount (default "USD" currency))) /\
    d !! "props"
    = (if JS.truthy_opt productTitle
       then Some (FProps [("productTitle", of_string productTitle)])
       else None).
Proof.
  unfold trackPurchase, trackEvent, plausible.
  destruct (JS.truthy_opt productTitle).
  - rewrite map_size_insert_None
      by (rewrite insert_empty; apply lookup_singleton_ne; discriminate).
    eexists. split; [reflexivity|]. split.
    + apply lookup_insert_eq.
    + rewrite lookup_insert_ne by discriminate. apply lookup_insert_eq.
  - rewrite insert_empty, map_size_singleton.
    eexists. split; [reflexivity|]. split.
    + apply lookup_singleton_eq.
    + apply lookup_singleton_ne. discriminate.
Qed.

End PlausibleMore.

(** ** components/VideoPlayer *)

Section VideoPlayerMore.
Import VideoPlayer VideoPlayerSpec.
Variable Math_round : float -> float.
Variable props : VideoPlayerProps.
Variable w : option Window.

Ltac unfold_handlers :=
  unfold step, handlePlayClick, handlePlayClick_timeout, togglePlayPause,
    toggleMute, toggleFullscreen_call, toggleFullscreen_resume,
    handleTimeUpdate, handleVideoEnded, handleProgressClick, handleMouseMove,
    handleMouseMove_timeout, handleMouseLeave, handleFullscreenChange;
  unfold track_first_play, handleTimeUpdate_milestone, await, console_error,
    video_set_paused;
  unfold pushToDataLayer, track, getVideoEventProps.

Ltac walk leaf :=
  repeat
    match goal with
    | |- preserves _ (ret _) => apply preserves_ret
    | |- preserves _ (gets _) => apply preserves_gets
    | |- preserves _ (throw _) => apply preserves_throw
    | |- preserves _ (when _ _) => apply preserves_when
    | |- preserves _ (for_of _ _) => apply preserves_for_of; intros ? ?
    | |- preserves _ (bind _ _) => apply preserves_bind; [|intros ?]
    | |- preserves _ (try_catch _ _) => apply preserves_try_catch; [|intros ?]
    | |- preserves _ (modify _) => apply preserves_modify; intros ? ?; leaf
    | |- preserves _ (match ?x with _ => _ end) => destruct x
    end.

Lemma mirrored_frame (f : State -> State) st :
  plausible (f st) = plausible st -> window (f st) = window st ->
  mirrored w st -> mirrored w (f st).
Proof.
  intros Hp Hw (pushed & H1 & H2). exists pushed. rewrite Hp, Hw. auto.
Qed.

Lemma pushToDataLayer_pushed name data st pushed :
  window st = with_pushed w pushed ->
  exists st',
    pushToDataLayer name data st = Done tt st' /\
    window st'
    = with_pushed w (pushed ++ [("event", Plausible.VString name) :: data]) /\
    plausible st' = plausible st.
Proof.
  intros Hw. unfold pushToDataLayer, bind, gets, modify, ret. rewrite Hw.
  unfold with_pushed in *. destruct w as [[[dl0|]]|]; cbn in *.
  - eexists. split; [reflexivity|]. cbn. rewrite app_assoc. auto.
  - eexists. split; [reflexivity|]. auto.
  - eexists. split; [reflexivity|]. auto.
Qed.

(** A report to Plausible followed by its push on the dataLayer. *)
Lemma mirrored_report f c name data st :
  (forall l, f l = l ++ [c]) ->
  mirrors c (("event", Plausible.VString name) :: data) ->
  mirrored w st ->
  exists st',
    (track f ;; pushToDataLayer name data)%handler st = Done tt st' /\
    mirrored w st'.
Proof.
  intros Hf Hc (pushed & H1 & H2).
  unfold bind at 1. unfold track, modify.
  destruct (pushToDataLayer_pushed name data
              (set_plausible (f (plausible st)) st) pushed H1)
    as (st' & Hx & Hw' & Hp').
  exists st'. split; [exact Hx|].
  exists (pushed ++ [("event", Plausible.VString name) :: data]).
  split; [exact Hw'|].
  rewrite Hp'. cbn. rewrite Hf. apply Forall2_app; [exact H2|].
  constructor; [exact Hc|constructor].
Qed.

Lemma preserves_report f c name data :
  (forall l, f l = l ++ [c]) ->
  mirrors c (("event", Plausible.VString name) :: data) ->
  preserves (mirrored w) (track f ;; pushToDataLayer name data)%handler.
Proof.
  intros Hf Hc st H.
  destruct (mirrored_report f c name data st Hf Hc H) as (st' & -> & H').
  exact H'.
Qed.

Lemma preserves_report_then f c name data (k : unit -> M unit) :
  (forall l, f l = l ++ [c]) ->
  mirrors c (("event", Plausible.VString name) :: data) ->
  (forall u, preserves (mirrored w) (k u)) ->
  preserves (mirrored w)
    (track f ;; (x <- pushToDataLayer name data ;; k x))%handler.
Proof.
  intros Hf Hc Hk st H.
  destruct (mirrored_report f c name data st Hf Hc H) as (st' & E & H').
  unfold bind in E |- *. unfold track, modify in E |- *.
  destruct (pushToDataLayer name data _); [|discriminate].
  injection E as -> ->. apply Hk, H'.
Qed.

Lemma step_mirrored e : preserves (mirrored w) (step Math_round props e).
Proof.
  destruct e;
    unfold step, handlePlayClick, handlePlayClick_timeout, togglePlayPause,
      toggleMute, toggleFullscreen_call, toggleFullscreen_resume,
      handleTimeUpdate, handleVideoEnded, handleProgressClick, handleMouseMove,
      handleMouseMove_timeout, handleMouseLeave, handleFullscreenChange;
    unfold track_first_play, handleTimeUpdate_milestone, await, console_error,
      video_set_paused;
    unfold getVideoEventProps.
  all: repeat
    match goal with
    | |- preserves _ (bind (track _) (fun _ => pushToDataLayer _ _)) =>
        eapply preserves_report
    | |- preserves _ (bind (track _) (fun _ => bind (pushToDataLayer _ _) _)) =>
        eapply preserves_report_then
    | |- preserves _ (ret _) => apply preserves_ret
    | |- preserves _ (gets _) => apply preserves_gets
    | |- preserves _ (throw _) => apply preserves_throw
    | |- preserves _ (when _ _) => apply preserves_when
    | |- preserves _ (for_of _ _) => apply preserves_for_of; intros ? ?
    | |- preserves _ (bind _ _) => apply preserves_bind; [|intros ?]
    | |- preserves _ (try_catch _ _) => apply preserves_try_catch; [|intros ?]
    | |- preserves _ (modify _) =>
        apply preserves_modify; intros ? ?;
        apply mirrored_frame; [reflexivity|reflexivity|assumption]
    | |- preserves _ (match ?x with _ => _ end) => destruct x
    | |- forall l, _ = l ++ [_] =>
        intros ?;
        unfold Plausible.trackVideoPlay, Plausible.trackVideoPause,
          Plausible.trackVideoProgress, Plausible.trackVideoComplete;
        apply trackEvent_props
    | |- mirrors _ _ =>
        repeat split; rewrite ?prop_of_props_call; reflexivity
    | |- forall _ : unit, _ => intros ?
    end.
Qed.

(** X7. On a page that has a dataLayer, the events a session pushes on it
    mirror its Plausible calls one for one and in order: each carries the
    dataLayer name of the call's event, and the title and the URL the call
    carries.  On a page without a dataLayer, or without a window, the
    session leaves the window as it was: it never installs a dataLayer. *)
Theorem dataLayer_mirrors_plausible evs :
  let st := run Math_round props evs (initial w) in
  match w with
  | Some (mkWindow (Some dl)) =>
      window st = Some (mkWindow (Some (dl ++ pushed_since w st))) /\
      Forall2 mirrors (plausible st) (pushed_since w st)
  | _ => window st = w
  end.
Proof.
  intros st.
  assert (H : mirrored w st).
  { apply run_preserves; [apply step_mirrored|].
    exists []. split; [|constructor].
    unfold with_pushed. destruct w as [[[dl|]]|]; cbn; [|reflexivity..].
    rewrite app_nil_r. reflexivity. }
  destruct H as (pushed & Hw & Hm). unfold pushed_since. rewrite Hw.
  destruct w as [[[dl|]]|]; cbn; [|reflexivity..].
  rewrite drop_app_length. auto.
Qed.

Lemma preserves_getVideoEventProps {A} I (k : _ -> M A) :
  (forall p, Plausible.videoPath p = videoPath props ->
             Plausible.videoTitle p = title props -> preserves I (k p)) ->
  preserves I (p <- getVideoEventProps Math_round props ;; k p)%handler.
Proof.
  intros Hk st H. unfold getVideoEventProps, bind, gets, ret.
  apply Hk; [reflexivity|reflexivity|exact H].
Qed.

Lemma step_video_reports e :
  preserves (fun st => Forall (video_report props) (plausible st))
    (step Math_round props e).
Proof.
  destruct e;
    unfold step, handlePlayClick, handlePlayClick_timeout, togglePlayPause,
      toggleMute, toggleFullscreen_call, toggleFullscreen_resume,
      handleTimeUpdate, handleVideoEnded, handleProgressClick, handleMouseMove,
      handleMouseMove_timeout, handleMouseLeave, handleFullscreenChange;
    unfold track_first_play, handleTimeUpdate_milestone, await, console_error,
      video_set_paused;
    unfold pushToDataLayer, track.
  all: repeat
    match goal with
    | |- preserves _ (bind (getVideoEventProps _ _) _) =>
        apply preserves_getVideoEventProps; intros ? ? ?
    | |- preserves _ (ret _) => apply preserves_ret
    | |- preserves _ (gets _) => apply preserves_gets
    | |- preserves _ (throw _) => apply preserves_throw
    | |- preserves _ (when _ _) => apply preserves_when
    | |- preserves _ (for_of _ _) => apply preserves_for_of; intros ? ?
    | |- preserves _ (bind _ _) => apply preserves_bind; [|intros ?]
    | |- preserves _ (try_catch _ _) => apply preserves_try_catch; [|intros ?]
    | |- preserves _ (modify _) =>
        apply preserves_modify; intros ? ?; cbn [plausible set_plausible];
        first
          [assumption
          |unfold Plausible.trackVideoPlay, Plausible.trackVideoPause,
             Plausible.trackVideoProgress, Plausible.trackVideoComplete;
           rewrite trackEvent_props; apply Forall_app; split; [assumption|];
           constructor; [|constructor];
           unfold video_report; rewrite !prop_of_props_call;
           cbn [Plausible.eventName Plausible.props_call Plausible.options
                Plausible.assoc String.eqb Ascii.eqb Bool.eqb In];
           repeat split; [tauto|eexists; reflexivity|congruence..]]
    | |- preserves _ (match ?x with _ => _ end) => destruct x
    end.
Qed.

(** X8. Every Plausible call of a session is one of the four video events,
    its options hold [props] and nothing else (never a revenue), and its
    [videoPath] and [videoTitle] are those the component was given,
    whatever the video element and the events of the session. *)
Theorem every_report_is_a_video_report evs :
  Forall (video_report props)
    (plausible (run Math_round props evs (initial w))).
Proof.
  apply (run_preserves Math_round props
           (fun st => Forall (video_report props) (plausible st)));
    [apply step_video_reports|constructor].
Qed.

Lemma milestone_turn_exact cp m0 st v :
  videoRef st = Some v ->
  let p := Plausible.mkVideoEventProps (title props) (videoPath props)
             (Some (duration v)) (Some (currentTime v))
             (Some (Math_round (currentTime v / duration v * number 100)%float))
  in
  exists st',
    handleTimeUpdate_milestone Math_round props cp m0 st = Done tt st' /\
    if geb cp (number m0) && negb (bool_decide (m0 ∈ trackedMilestonesRef st))
    then
      videoRef st' = Some v /\ progress st' = progress st /\
      plausible st' = Plausible.trackVideoProgress p (number m0) (plausible st) /\
      trackedMilestonesRef st' = {[m0]} ∪ trackedMilestonesRef st
    else st' = st.
Proof.
  intros Hv p.
  unfold handleTimeUpdate_milestone, getVideoEventProps, track,
    pushToDataLayer, bind, gets, modify, ret, when.
  destruct (geb cp (number m0) && negb (bool_decide (m0 ∈ trackedMilestonesRef st))).
  - cbn. rewrite Hv. cbn.
    destruct (window st) as [[[dl|]]|]; cbn; (eexists; split; [reflexivity|]);
      cbn; auto.
  - eexists. split; reflexivity.
Qed.

Lemma milestone_loop_exact cp l st v :
  NoDup l ->
  videoRef st = Some v ->
  let p := Plausible.mkVideoEventProps (title props) (videoPath props)
             (Some (duration v)) (Some (currentTime v))
             (Some (Math_round (currentTime v / duration v * number 100)%float))
  in
  let new :=
    List.filter
      (fun m => geb cp (number m)
                && negb (bool_decide (m ∈ trackedMilestonesRef st))) l in
  exists st',
    for_of l (handleTimeUpdate_milestone Math_round props cp) st = Done tt st' /\
    videoRef st' = Some v /\ progress st' = progress st /\
    plausible st'
    = fold_left (fun log m => Plausible.trackVideoProgress p (number m) log)
        new (plausible st) /\
    trackedMilestonesRef st' = list_to_set new ∪ trackedMilestonesRef st.
Proof.
  intros Hl. revert st. induction Hl as [|m0 l Hm0 Hl IH]; intros st Hv p new.
  - exists st. cbn. repeat split; auto. set_solver.
  - cbn [for_of]. unfold bind.
    destruct (milestone_turn_exact cp m0 st v Hv) as (st1 & -> & H1).
    subst new. cbn [List.filter].
    destruct (geb cp (number m0)
              && negb (bool_decide (m0 ∈ trackedMilestonesRef st))) eqn:C.
    + destruct H1 as (Hv1 & Hp1 & Hl1 & Ht1).
      destruct (IH st1 Hv1) as (st2 & E2 & Hv2 & Hp2 & Hl2 & Ht2).
      assert (F : List.filter
                (fun m => geb cp (number m)
                          && negb (bool_decide (m ∈ trackedMilestonesRef st1))) l
              = List.filter
                  (fun m => geb cp (number m)
                            && negb (bool_decide (m ∈ trackedMilestonesRef st))) l).
      { apply filter_ext_in. intros m Hm. f_equal. f_equal.
        apply bool_decide_ext. rewrite Ht1.
        rewrite elem_of_union, elem_of_singleton.
        split; [intros [->|?]; [|assumption]|auto].
        exfalso. apply Hm0, list_elem_of_In, Hm. }
      rewrite F in Hl2, Ht2.
      exists st2. split; [exact E2|]. split; [exact Hv2|].
      split; [congruence|]. cbn [fold_left].
      split; [rewrite Hl2, Hl1; reflexivity|]. rewrite Ht2, Ht1. cbn [list_to_set].
      set_solver.
    + subst st1. apply IH, Hv.
Qed.

(** X9. With the video mounted, [handleTimeUpdate] sets the progress to
    [currentTime / duration * 100] and reports exactly the milestones among
    25, 50 and 75 that this progress has reached and that were not tracked
    before: one [Video Progress] call each, in ascending order, all in the
    same handler run when the progress jumps over several; these milestones
    join the tracked ones. *)
Theorem handleTimeUpdate_reports_reached st v :
  videoRef st = Some v ->
  let cp := (currentTime v / duration v * number 100)%float in
  let p := Plausible.mkVideoEventProps (title props) (videoPath props)
             (Some (duration v)) (Some (currentTime v))
             (Some (Math_round cp)) in
  let new := reached cp (trackedMilestonesRef st) in
  exists st',
    handleTimeUpdate Math_round props st = Done tt st' /\
    progress st' = cp /\
    plausible st'
    = fold_left (fun log m => Plausible.trackVideoProgress p (number m) log)
        new (plausible st) /\
    trackedMilestonesRef st' = list_to_set new ∪ trackedMilestonesRef st.
Proof.
  intros Hv cp p new.
  unfold handleTimeUpdate, bind at 1, gets at 1. rewrite Hv.
  unfold bind at 1, modify at 1. fold cp.
  assert (Hd : NoDup milestones).
  { unfold milestones. repeat (constructor; [set_solver|]). constructor. }
  destruct (milestone_loop_exact cp milestones (set_progress cp st) v Hd Hv)
    as (st' & E & _ & Hp & Hl & Ht).
  exists st'. auto.
Qed.

Lemma is_nan_Prim2SF x : is_nan x = true -> Prim2SF x = S754_nan.
Proof.
  unfold is_nan. rewrite FloatAxioms.eqb_spec.
  destruct (Prim2SF x) as [s|s| |s m e]; cbn; try discriminate; auto.
  - destruct s; discriminate.
  - rewrite Z.compare_refl, Pos.compare_cont_refl. destruct s; discriminate.
Qed.

Lemma Prim2SF_is_nan x : Prim2SF x = S754_nan -> is_nan x = true.
Proof. unfold is_nan. rewrite FloatAxioms.eqb_spec. intros ->. reflexivity. Qed.

Lemma nan_progress c d :
  is_nan d = true -> Prim2SF (c / d * number 100)%float = S754_nan.
Proof.
  intros H. apply is_nan_Prim2SF in H.
  rewrite mul_spec, div_spec, H.
  destruct (Prim2SF c); reflexivity.
Qed.

Lemma geb_nan x y : Prim2SF x = S754_nan -> geb x y = false.
Proof.
  intros H. unfold geb. rewrite leb_spec, H.
  unfold SFleb. destruct (Prim2SF y); reflexivity.
Qed.

(** X10. While the duration of the video is not known (it is [NaN]), a
    time update gives a progress that is [NaN], reaches no milestone and
    reports nothing: only the progress state changes. *)
Theorem handleTimeUpdate_without_duration st v :
  videoRef st = Some v ->
  is_nan (duration v) = true ->
  let cp := (currentTime v / duration v * number 100)%float in
  is_nan cp = true /\
  handleTimeUpdate Math_round props st = Done tt (set_progress cp st).
Proof.
  intros Hv Hd cp. pose proof (nan_progress (currentTime v) _ Hd) as Hn.
  split; [apply Prim2SF_is_nan, Hn|].
  unfold handleTimeUpdate, bind at 1, gets at 1. rewrite Hv.
  unfold bind at 1, modify at 1. fold cp.
  generalize (set_progress cp st). unfold milestones.
  intros s. cbn [for_of]. unfold handleTimeUpdate_milestone, bind, gets, when.
  rewrite !(geb_nan cp) by exact Hn. reflexivity.
Qed.

Lemma step_keeps_controls_timer t e :
  is_controls_timer e = false ->
  preserves (fun st => controlsTimeoutRef st = t) (step Math_round props e).
Proof.
  intros He. destruct e; try discriminate He; unfold_handlers;
    walk ltac:(cbn; assumption).
Qed.

Lemma run_keeps_controls_timer t evs st :
  forallb (fun e => negb (is_controls_timer e)) evs = true ->
  controlsTimeoutRef st = t ->
  controlsTimeoutRef (run Math_round props evs st) = t.
Proof.
  revert st. induction evs as [|e evs IH]; intros st He H; cbn; [exact H|].
  cbn in He. apply andb_prop in He as [He1 He2].
  apply IH; [exact He2|]. apply step_keeps_controls_timer; [|exact H].
  destruct (is_controls_timer e); [discriminate|reflexivity].
Qed.

(** X13. The timer [handleMouseMove] sets decides with the [isPaused] of
    the render in which the mouse moved, not with the one current when it
    fires: after a mouse move, whatever happens before the timer fires
    (other than a further mouse move), the controls end up hidden unless the
    player was paused when the mouse moved. *)
Theorem controls_timer_uses_isPaused_of_mouse_move st mid :
  forallb (fun e => negb (is_controls_timer e)) mid = true ->
  showControls (run Math_round props (MouseMove :: mid ++ [ControlsTimeout]) st)
  = isPaused st
    && showControls (run Math_round props (MouseMove :: mid) st).
Proof.
  intros Hmid.
  change (MouseMove :: mid ++ [ControlsTimeout])
    with ((MouseMove :: mid) ++ [ControlsTimeout]).
  rewrite run_app.
  assert (Ht : controlsTimeoutRef (run Math_round props (MouseMove :: mid) st)
               = Some (isPaused st)).
  { cbn [run fold_left].
    apply (run_keeps_controls_timer (Some (isPaused st)) mid); [exact Hmid|].
    reflexivity. }
  generalize dependent (run Math_round props (MouseMove :: mid) st).
  intros st1 Ht. cbn [run fold_left step]. unfold bind at 1, gets at 1.
  rewrite Ht. unfold handleMouseMove_timeout, bind, modify, when.
  destruct (isPaused st); reflexivity.
Qed.

Lemma step_keeps_isFullscreen b e :
  sets_fullscreen e = false ->
  preserves (fun st => isFullscreen st = b) (step Math_round props e).
Proof.
  intros He. destruct e as [| | | | |[|err]| | | | | | | |];
    try discriminate He.
  6: { intros st H. cbn [step]. unfold bind at 1, gets at 1.
       destruct (fullscreenRequests st) as [|[|] qs]; cbn; exact H. }
  all: unfold_handlers; walk ltac:(cbn; assumption).
Qed.

(** X14. Only a fullscreen request that resolved and a [fullscreenchange]
    event change [isFullscreen]: a click on the fullscreen button changes
    nothing before its request settles, a rejected request changes nothing,
    nor does any other event. *)
Theorem isFullscreen_changes_only_on_fullscreen_events evs st :
  forallb (fun e => negb (sets_fullscreen e)) evs = true ->
  isFullscreen (run Math_round props evs st) = isFullscreen st.
Proof.
  revert st. induction evs as [|e evs IH]; intros st He; [reflexivity|].
  cbn in He. apply andb_prop in He as [He1 He2].
  change (run Math_round props (e :: evs) st)
    with (run Math_round props evs (state_of (step Math_round props e st))).
  rewrite IH by exact He2.
  apply step_keeps_isFullscreen; [|reflexivity].
  destruct (sets_fullscreen e); [discriminate|reflexivity].
Qed.

(** X15. The click targets of the view: before the first click the poster
    button alone, which starts the video; once playing, the video, the
    progress bar and the three control buttons, and the centre play button
    as well while paused. *)
Theorem click_targets_of_the_view st :
  click_handlers (render props st)
  = if isPlaying st then
      [React.PHandler "togglePlayPause"; React.PHandler "handleProgressClick";
       React.PHandler "togglePlayPause"; React.PHandler "toggleMute";
       React.PHandler "toggleFullscreen"]
      ++ (if isPaused st then [React.PHandler "togglePlayPause"] else [])
    else [React.PHandler "handlePlayClick"].
Proof.
  unfold render, poster, player, click_handlers.
  destruct (isPlaying st), (isPaused st), (isMuted st), (isFullscreen st),
    (JS.truthy_opt (gifPath props)), (JS.truthy_opt (thumbnailPath props));
    reflexivity.
Qed.

(** X11. [toggleMute] and [togglePlayPause] flip the flag of the video
    element and set the state of the component from the element, not from
    the state it had: after the click [isMuted] and [isPaused] agree with
    the element, whatever they were before. *)
Theorem toggles_follow_the_element st v :
  videoRef st = Some v ->
  let muted_st := state_of (step Math_round props ClickMute st) in
  let paused_st := state_of (step Math_round props ClickPlayPause st) in
  muted <$> videoRef muted_st = Some (negb (muted v)) /\
  isMuted muted_st = negb (muted v) /\
  paused <$> videoRef paused_st = Some (negb (paused v)) /\
  isPaused paused_st = negb (paused v).
Proof.
  intros Hv. cbn [step]. split; [|split].
  - unfold toggleMute, bind, gets, modify. rewrite Hv. reflexivity.
  - unfold toggleMute, bind, gets, modify. rewrite Hv. reflexivity.
  - unfold togglePlayPause, track_first_play, video_set_paused,
      getVideoEventProps, track, pushToDataLayer, bind, gets, modify, ret,
      when.
    rewrite Hv. destruct (paused v) eqn:P; cbn; rewrite Hv; cbn.
    + destruct (hasTrackedPlayRef st); cbn; [rewrite ?P; auto|].
      destruct (window st) as [[[dl|]]|]; cbn; rewrite ?P; auto.
    + destruct (window st) as [[[dl|]]|]; cbn; rewrite ?P; auto.
Qed.

(** X12. Without a video element the handlers guarded by
    [if (videoRef.current)] do nothing at all: play/pause, mute, time update
    and a click on the progress bar leave the state as it is and report
    nothing. *)
Theorem guarded_handlers_need_the_video st e :
  videoRef st = None -> needs_video e = true ->
  step Math_round props e st = Done tt st.
Proof.
  intros Hv He. destruct e; try discriminate He; cbn [step];
    unfold togglePlayPause, toggleMute, handleTimeUpdate, handleProgressClick,
      bind, gets, ret;
    rewrite Hv; reflexivity.
Qed.

(** X16. The set of tracked milestones never holds anything but 25, 50, 75
    and 100, whatever the events of the session. *)
Theorem tracked_milestones_are_bounded evs :
  trackedMilestonesRef (run Math_round props evs (initial w))
  ⊆ ({[25; 50; 75; 100]} : gset Z)%Z.
Proof.
  apply (run_preserves Math_round props
           (fun st => trackedMilestonesRef st ⊆ ({[25; 50; 75; 100]} : gset Z)%Z)).
  - intros e. destruct e; unfold_handlers;
      walk ltac:(cbn in *; first [assumption|set_solver]).
  - cbn. set_solver.
Qed.

End VideoPlayerMore.

Section VideoPlayerMoreWitnesses.
Import VideoPlayer VideoPlayerSpec.

Lemma handleTimeUpdate_reports_reached_witness :
  exists st',
    handleTimeUpdate (fun x => x)
      (mkProps "intro.mp4" (Some "Intro") None None None)
      (set_videoRef (Some (mkVideo (number 30) (number 60) false false))
         (initial None))
    = Done tt st' /\
    trackedMilestonesRef st' = list_to_set [25; 50]%Z ∪ ∅.
Proof.
  destruct (handleTimeUpdate_reports_reached (fun x => x)
              (mkProps "intro.mp4" (Some "Intro") None None None)
              (set_videoRef (Some (mkVideo (number 30) (number 60) false false))
                 (initial None))
              (mkVideo (number 30) (number 60) false false) eq_refl)
    as (st' & E & _ & _ & Ht).
  exists st'. split; [exact E|exact Ht].
Defined.

Lemma handleTimeUpdate_without_duration_witness :
  handleTimeUpdate (fun x => x)
    (mkProps "intro.mp4" (Some "Intro") None None None)
    (set_videoRef (Some (mkVideo (number 0) nan false false)) (initial None))
  = Done tt
      (set_progress (number 0 / nan * number 100)%float
         (set_videoRef (Some (mkVideo (number 0) nan false false))
            (initial None))).
Proof.
  exact (proj2 (handleTimeUpdate_without_duration (fun x => x)
                  (mkProps "intro.mp4" (Some "Intro") None None None)
                  (set_videoRef (Some (mkVideo (number 0) nan false false))
                     (initial None))
                  (mkVideo (number 0) nan false false) eq_refl eq_refl)).
Defined.

Lemma controls_timer_uses_isPaused_of_mouse_move_witness :
  isPaused
    (run (fun x => x) (mkProps "intro.mp4" (Some "Intro") None None None)
       [MouseMove; ClickPlayPause]
       (set_videoRef (Some (mkVideo (number 10) (number 60) false false))
          (set_isPlaying true (initial None))))
  = true /\
  showControls
    (run (fun x => x) (mkProps "intro.mp4" (Some "Intro") None None None)
       [MouseMove; ClickPlayPause; ControlsTimeout]
       (set_videoRef (Some (mkVideo (number 10) (number 60) false false))
          (set_isPlaying true (initial None))))
  = false.
Proof.
  split; [reflexivity|].
  exact (controls_timer_uses_isPaused_of_mouse_move (fun x => x)
           (mkProps "intro.mp4" (Some "Intro") None None None)
           (set_videoRef (Some (mkVideo (number 10) (number 60) false false))
              (set_isPlaying true (initial None)))
           [ClickPlayPause] eq_refl).
Defined.

Lemma isFullscreen_changes_only_on_fullscreen_events_witness :
  isFullscreen
    (run (fun x => x) (mkProps "intro.mp4" (Some "Intro") None None None)
       [ClickFullscreen; FullscreenSettled (Rejected "denied"); MouseMove;
        ClickMute]
       (initial None))
  = false.
Proof.
  exact (isFullscreen_changes_only_on_fullscreen_events (fun x => x)
           (mkProps "intro.mp4" (Some "Intro") None None None)
           [ClickFullscreen; FullscreenSettled (Rejected "denied"); MouseMove;
            ClickMute]
           (initial None) eq_refl).
Defined.

Lemma toggles_follow_the_element_witness :
  isMuted
    (state_of
       (step (fun x => x) (mkProps "intro.mp4" (Some "Intro") None None None)
          ClickMute
          (set_isMuted true
             (set_videoRef
                (Some (mkVideo (number 10) (number 60) false true))
                (initial None)))))
  = false.
Proof.
  exact (proj1 (proj2 (toggles_follow_the_element (fun x => x)
                         (mkProps "intro.mp4" (Some "Intro") None None None)
                         (set_isMuted true
                            (set_videoRef
                               (Some (mkVideo (number 10) (number 60) false true))
                               (initial None)))
                         (mkVideo (number 10) (number 60) false true)
                         eq_refl))).
Defined.

Lemma guarded_handlers_need_the_video_witness :
  step (fun x => x) (mkProps "intro.mp4" (Some "Intro") None None None)
    TimeUpdate (initial None)
  = Done tt (initial None).
Proof.
  exact (guarded_handlers_need_the_video (fun x => x)
           (mkProps "intro.mp4" (Some "Intro") None None None)
           (initial None) TimeUpdate eq_refl eq_refl).
Defined.

End VideoPlayerMoreWitnesses.

(** ** components/ai/page-actions *)

Section CopyButtonFacts.
Import CopyButton.
Variable fetch : string -> string + string.
Variable writable : bool.

(** X17. However the copy ends, the button is not left loading: after the
    callback [isLoading] is false, unless the text came from the cache, in
    which case it was never set.  The callback touches the cache entry of
    its own URL only, and writes it whenever the response was read, also
    when the clipboard then refuses the text. *)
Theorem onCopy_ends_loading url st :
  let st' := state_of (onCopy fetch writable url st) in
  isLoading st' = JS.truthy_opt (cache st !! url) && isLoading st /\
  (forall url', url' <> url -> cache st' !! url' = cache st !! url') /\
  cache st' !! url
  = (if JS.truthy_opt (cache st !! url) then cache st !! url
     else match fetch url with
          | inl content => Some content
          | inr _ => cache st !! url
          end).
Proof.
  unfold onCopy, writeText.
  destruct (JS.truthy_opt (cache st !! url)) eqn:T.
  - destruct writable; cbn; auto.
  - destruct (fetch url) as [content|err]; [destruct writable|]; cbn;
      (split; [reflexivity|]); (split; [|try apply lookup_insert_eq; reflexivity]);
      intros url' Hne; try reflexivity; apply lookup_insert_ne; congruence.
Qed.

Lemma onCopy_hit url st text :
  cache st !! url = Some text -> text <> "" ->
  onCopy fetch true url st = Fulfilled (set_clipboard (Some text) st).
Proof.
  intros H Hne. unfold onCopy, writeText. rewrite H.
  destruct text; [contradiction|reflexivity].
Qed.

(** X18. When the first copy fetches the page and the clipboard takes
    it, every later copy of the same URL is served from the cache and the
    page is fetched once, unless the page is empty: an empty text is cached
    but is falsy, so every click fetches it again. *)
Theorem later_copies_use_the_cache url body n st :
  fetch url = inl body ->
  JS.truthy_opt (cache st !! url) = false ->
  let st' := clicks fetch true url (S n) st in
  clipboard st' = Some body /\
  cache st' !! url = Some body /\
  fetched st'
  = fetched st ++ (if String.eqb body "" then repeat url (S n) else [url]).
Proof.
  intros Hf Hc. induction n as [|n IH].
  - cbn. unfold onCopy, writeText. rewrite Hc, Hf. cbn.
    rewrite lookup_insert_eq. destruct (String.eqb body ""); auto.
  - change (clicks fetch true url (S (S n)) st)
      with (state_of (onCopy fetch true url (clicks fetch true url (S n) st))).
    destruct IH as (Hcl & Hca & Hfe).
    generalize dependent (clicks fetch true url (S n) st). intros s Hcl Hca Hfe.
    intros st'. subst st'.
    destruct body as [|c body].
    + unfold onCopy, writeText. rewrite Hca, Hf. cbn.
      rewrite lookup_insert_eq, Hfe. cbn. repeat split.
      rewrite <- app_assoc. f_equal. cbn. f_equal.
      change (url :: repeat url n) with (repeat url (S n)).
      rewrite <- repeat_cons. reflexivity.
    + rewrite (onCopy_hit url s (String c body) Hca) by discriminate.
      cbn. auto.
Qed.

End CopyButtonFacts.

Section CopyButtonWitnesses.
Import CopyButton.

Lemma later_copies_use_the_cache_witness :
  fetched
    (clicks (fun _ => inl "# Steps") true "/docs/concepts/steps.mdx" 3
       (mkState ∅ false None []))
  = ["/docs/concepts/steps.mdx"].
Proof.
  exact (proj2 (proj2 (later_copies_use_the_cache (fun _ => inl "# Steps")
                         "/docs/concepts/steps.mdx" "# Steps" 2
                         (mkState ∅ false None []) eq_refl eq_refl))).
Defined.

End CopyButtonWitnesses.

Section PageActionsMore.
Import React PageActions.
Variable URL : string -> string -> option string.
Variable cn : string -> string.
Variable buttonVariants : string -> string -> string -> string.

(** X19. The query string of each assistant link reads back as exactly
    the parameters written: [hints=search] and [q] for ChatGPT, [q] alone
    for Claude, T3 Chat and Scira AI, with [q] the prompt naming the
    resolved URL (the placeholder [loading] where there is no window).
    Whatever characters the URL holds, it cannot add or cut a parameter.
    Where the URL does not resolve, the render throws. *)
Theorem assistant_queries_hold_the_prompt_alone
    (origin : option string) (markdownUrl githubUrl : string) :
  match
    match origin with
    | Some o => URL markdownUrl o
    | None => Some "loading"
    end
  with
  | None => items URL origin markdownUrl githubUrl = Throw "TypeError"
  | Some full =>
      let q := "Read " +:+ full +:+ ", I want to ask questions about it." in
      exists its,
        items URL origin markdownUrl githubUrl = Return its /\
        map (fun it => URLSearchParams.parse (url_query (href it))) (tl its)
        = [[("hints", "search"); ("q", q)]; [("q", q)]; [("q", q)];
           [("q", q)]]
  end.
Proof.
  unfold items.
  destruct (match origin with
            | Some o => URL markdownUrl o
            | None => Some "loading"
            end) as [full|]; [|reflexivity].
  eexists. split; [reflexivity|]. cbn [tl map href].
  repeat match goal with
  | |- context [url_query (?base +:+ URLSearchParams.toString ?l)] =>
      change (url_query (base +:+ URLSearchParams.toString l))
        with (until_hash (URLSearchParams.toString l));
      rewrite (until_hash_no_hash (URLSearchParams.toString l))
        by apply toString_no_hash;
      rewrite (parse_toString l)
  end.
  reflexivity.
Qed.

(** X20. [ViewOptions] throws where its items throw; otherwise it renders
    one anchor per item, in order, whose [href] and [key] are the item's
    link, and every anchor opens in a new tab with
    [rel] set to noreferrer noopener. *)
Theorem ViewOptions_links
    (origin : option string) (markdownUrl githubUrl : string) :
  match items URL origin markdownUrl githubUrl with
  | Throw err =>
      ViewOptions URL cn buttonVariants origin markdownUrl githubUrl
      = Throw err
  | Return its =>
      exists view,
        ViewOptions URL cn buttonVariants origin markdownUrl githubUrl
        = Return view /\
        map (prop "href") (by_tag "a" view)
        = map (fun it => Some (PStr (href it))) its /\
        map (prop "key") (by_tag "a" view)
        = map (fun it => Some (PStr (href it))) its /\
        Forall
          (fun a =>
             prop "rel" a = Some (PStr "noreferrer noopener") /\
             prop "target" a = Some (PStr "_blank"))
          (by_tag "a" view)
  end.
Proof.
  unfold ViewOptions, items.
  destruct (match origin with
            | Some o => URL markdownUrl o
            | None => Some "loading"
            end) as [full|]; [|reflexivity].
  eexists. split; [reflexivity|]. split; [reflexivity|].
  split; [reflexivity|]. repeat constructor.
Qed.

End PageActionsMore.

(** ** mdx-components *)

Section DocsPageMore.
Import DocsPage.
Variable defaultMdxComponents : MDXComponents.
Variable Twoslash : MDXComponents.

Ltac spread :=
  repeat first [rewrite lookup_singleton_eq
               |rewrite lookup_singleton_ne by discriminate
               |rewrite union_Some_l
               |rewrite (left_id_L None (∪))];
  reflexivity.

(** X21. Precedence in [getMDXComponents]: the components of the caller
    are kept as given; for a name the caller does not give, Twoslash's
    component is used; then the [Tab], [Tabs], [pre] and [img] of the
    module itself; the defaults of fumadocs-ui come last. *)
Theorem getMDXComponents_precedence
    (components : option MDXComponents) (k : string) :
  let result := getMDXComponents defaultMdxComponents Twoslash components in
  default ∅ components ⊆ result /\
  result !! k
  = match default ∅ components !! k with
    | Some c => Some c
    | None =>
        match Twoslash !! k with
        | Some c => Some c
        | None =>
            if String.eqb k "Tab" then Some "Tab"
            else if String.eqb k "Tabs" then Some "Tabs"
            else if String.eqb k "pre" then Some "CodeBlock > Pre"
            else if String.eqb k "img" then Some "ImageZoom"
            else defaultMdxComponents !! k
        end
    end.
Proof.
  intros result. subst result. unfold getMDXComponents, MDXComponents in *.
  split.
  - repeat (etrans; [|apply map_union_subseteq_l]). reflexivity.
  - rewrite !lookup_union.
    destruct (default ∅ components !! k); [spread|].
    destruct (Twoslash !! k); [spread|].
    repeat match goal with
    | |- context [String.eqb k ?s] =>
        destruct (String.eqb_spec k s) as [->|]; [spread|]
    end.
    rewrite !lookup_singleton_ne by congruence. spread.
Qed.

End DocsPageMore.
